(** * Pomodoro timer: session state machine and wall-clock countdown

    A shallow embedding of [PomodoroTimer] (timer.ts) and of the data
    model it works on (types.ts), followed by the properties of the
    engine: the session-transition rule, the countdown, pause and resume,
    callback counts, skip, reset, time formatting and progress.

    Conventions of the embedding.
    - A JavaScript [number] that holds a count, a duration in
      milliseconds or a timestamp is a [Z]: the configuration is read
      with [parseInt], [Date.now()] is an integer, and the engine only
      adds, subtracts and multiplies those values.
    - The engine object is a record; its methods are computations in a
      small state monad over a [World] that also holds what the engine
      touches outside itself: the wall clock read by [Date.now()], the
      interval handles the host has scheduled ([window.setInterval],
      [clearInterval]) and the sequence of callback invocations.
    - A callback slot may be empty ([Partial<TimerCallbacks>], called
      through [?.]); the record [TimerCallbacks] says which slots are
      filled, and an invocation is logged only for a filled slot.
    - The text of a form field, which [parseInt] reads, is a sequence of
      UTF-16 code units; the texts the program itself builds are ASCII
      and are kept as [string]. *)

From Stdlib Require Import ZArith QArith String Ascii List Lia.
From Stdlib Require Import DecimalString DecimalPos.
From stdpp Require Import base decidable gmap sets.
Import ListNotations.

Local Open Scope Z_scope.

(** ** Data model (types.ts) *)

Inductive SessionType := work | break | longBreak.
Inductive ThemeMode := light | dark | system.
Inductive TimerStatus := idle | running | paused | completed.

Record PomodoroSettings := mkSettings {
  workDuration : Z;
  breakDuration : Z;
  longBreakDuration : Z;
  totalSets : Z;
  longBreakInterval : Z;
  soundEnabled : bool;
  notificationEnabled : bool;
  themeMode : ThemeMode
}.

Record TimerState := mkState {
  status : TimerStatus;
  currentSession : SessionType;
  currentSet : Z;
  remainingTime : Z;
  totalDuration : Z
}.

Definition DEFAULT_SETTINGS : PomodoroSettings :=
  {| workDuration := 25;
     breakDuration := 5;
     longBreakDuration := 15;
     totalSets := 4;
     longBreakInterval := 4;
     soundEnabled := true;
     notificationEnabled := true;
     themeMode := system |}.

(** [Partial<PomodoroSettings>]: a field is present or absent. *)
Record PartialSettings := mkPartial {
  p_workDuration : option Z;
  p_breakDuration : option Z;
  p_longBreakDuration : option Z;
  p_totalSets : option Z;
  p_longBreakInterval : option Z;
  p_soundEnabled : option bool;
  p_notificationEnabled : option bool;
  p_themeMode : option ThemeMode
}.

(** The empty object [{}]. *)
Definition no_settings : PartialSettings :=
  mkPartial None None None None None None None None.

(** A complete settings object seen as a partial one. *)
Definition all_settings (s : PomodoroSettings) : PartialSettings :=
  {| p_workDuration := Some (workDuration s);
     p_breakDuration := Some (breakDuration s);
     p_longBreakDuration := Some (longBreakDuration s);
     p_totalSets := Some (totalSets s);
     p_longBreakInterval := Some (longBreakInterval s);
     p_soundEnabled := Some (soundEnabled s);
     p_notificationEnabled := Some (notificationEnabled s);
     p_themeMode := Some (themeMode s) |}.

(** The object spread [{ ...base, ...over }]. *)
Definition spread (base : PomodoroSettings) (over : PartialSettings)
  : PomodoroSettings :=
  {| workDuration := default (workDuration base) (p_workDuration over);
     breakDuration := default (breakDuration base) (p_breakDuration over);
     longBreakDuration :=
       default (longBreakDuration base) (p_longBreakDuration over);
     totalSets := default (totalSets base) (p_totalSets over);
     longBreakInterval :=
       default (longBreakInterval base) (p_longBreakInterval over);
     soundEnabled := default (soundEnabled base) (p_soundEnabled over);
     notificationEnabled :=
       default (notificationEnabled base) (p_notificationEnabled over);
     themeMode := default (themeMode base) (p_themeMode over) |}.

(** Which of the four optional callback slots are filled. *)
Record TimerCallbacks := mkCallbacks {
  onTick : bool;
  onSessionEnd : bool;
  onComplete : bool;
  onStateChange : bool
}.

(** [{ ...this.callbacks, ...callbacks }] on slots: a slot filled on
    either side is filled in the result. *)
Definition spread_callbacks (base over : TimerCallbacks) : TimerCallbacks :=
  {| onTick := onTick base || onTick over;
     onSessionEnd := onSessionEnd base || onSessionEnd over;
     onComplete := onComplete base || onComplete over;
     onStateChange := onStateChange base || onStateChange over |}.

(** One invocation of a callback, with the arguments it received. *)
Inductive Event :=
| OnTick (s : TimerState)
| OnSessionEnd (sessionType : SessionType) (nextSession : option SessionType)
| OnComplete
| OnStateChange (s : TimerState).

(** ** The engine object and its surroundings *)

Record PomodoroTimer := mkTimer {
  settings : PomodoroSettings;
  state : TimerState;
  callbacks : TimerCallbacks;
  intervalId : option nat;
  startTime : Z;
  endTime : Z;
  pausedRemainingTime : Z
}.

Record World := mkWorld {
  self : PomodoroTimer;
  clock : Z;                (* what [Date.now()] returns *)
  intervals : gset nat;     (* handles scheduled and not yet cleared *)
  nextHandle : nat;         (* the handle [setInterval] returns next *)
  log : list Event          (* callback invocations, oldest first *)
}.

(** Field updates. *)
Definition with_status (v : TimerStatus) (s : TimerState) : TimerState :=
  mkState v (currentSession s) (currentSet s) (remainingTime s) (totalDuration s).
Definition with_currentSession (v : SessionType) (s : TimerState) : TimerState :=
  mkState (status s) v (currentSet s) (remainingTime s) (totalDuration s).
Definition with_currentSet (v : Z) (s : TimerState) : TimerState :=
  mkState (status s) (currentSession s) v (remainingTime s) (totalDuration s).
Definition with_remainingTime (v : Z) (s : TimerState) : TimerState :=
  mkState (status s) (currentSession s) (currentSet s) v (totalDuration s).
Definition with_totalDuration (v : Z) (s : TimerState) : TimerState :=
  mkState (status s) (currentSession s) (currentSet s) (remainingTime s) v.

Definition with_settings (v : PomodoroSettings) (t : PomodoroTimer) :=
  mkTimer v (state t) (callbacks t) (intervalId t) (startTime t) (endTime t)
    (pausedRemainingTime t).
Definition with_state (v : TimerState) (t : PomodoroTimer) :=
  mkTimer (settings t) v (callbacks t) (intervalId t) (startTime t) (endTime t)
    (pausedRemainingTime t).
Definition with_callbacks (v : TimerCallbacks) (t : PomodoroTimer) :=
  mkTimer (settings t) (state t) v (intervalId t) (startTime t) (endTime t)
    (pausedRemainingTime t).
Definition with_intervalId (v : option nat) (t : PomodoroTimer) :=
  mkTimer (settings t) (state t) (callbacks t) v (startTime t) (endTime t)
    (pausedRemainingTime t).
Definition with_startTime (v : Z) (t : PomodoroTimer) :=
  mkTimer (settings t) (state t) (callbacks t) (intervalId t) v (endTime t)
    (pausedRemainingTime t).
Definition with_endTime (v : Z) (t : PomodoroTimer) :=
  mkTimer (settings t) (state t) (callbacks t) (intervalId t) (startTime t) v
    (pausedRemainingTime t).
Definition with_pausedRemainingTime (v : Z) (t : PomodoroTimer) :=
  mkTimer (settings t) (state t) (callbacks t) (intervalId t) (startTime t)
    (endTime t) v.

(** ** The monad of engine methods *)

Definition M (A : Type) : Type := World -> A * World.

#[export] Instance M_ret : MRet M := fun A (a : A) w => (a, w).
#[export] Instance M_bind : MBind M :=
  fun A B (k : A -> M B) (m : M A) w => let (a, w') := m w in k a w'.

(** Running a method for its effect. *)
Definition exec {A} (m : M A) (w : World) : World := snd (m w).

(** [this] *)
Definition this : M PomodoroTimer := fun w => (self w, w).

Definition update (f : PomodoroTimer -> PomodoroTimer) : M unit :=
  fun w => (tt, mkWorld (f (self w)) (clock w) (intervals w) (nextHandle w) (log w)).

(** [this.state.<field> = v] *)
Definition update_state (f : TimerState -> TimerState) : M unit :=
  update (fun t => with_state (f (state t)) t).

(** [Date.now()] *)
Definition Date_now : M Z := fun w => (clock w, w).

(** [window.setInterval(() => this.tick(), 100)]: the host schedules a new
    interval and returns its handle. Every interval the engine schedules
    runs the same callback, [tick]; see [fire]. *)
Definition setInterval : M nat :=
  fun w => (nextHandle w,
            mkWorld (self w) (clock w) ({[nextHandle w]} ∪ intervals w)
              (S (nextHandle w)) (log w)).

(** [clearInterval(h)] *)
Definition clearInterval (h : nat) : M unit :=
  fun w => (tt, mkWorld (self w) (clock w) (intervals w ∖ {[h]})
                  (nextHandle w) (log w)).

(** [this.callbacks.slot?.(args)] *)
Definition invoke (slot : TimerCallbacks -> bool) (e : Event) : M unit :=
  fun w => (tt, if slot (callbacks (self w))
                then mkWorld (self w) (clock w) (intervals w) (nextHandle w)
                       (log w ++ [e])
                else w).

(** ** JavaScript arithmetic used by the engine *)

(** [a % b] on integers: the remainder has the sign of the dividend, and
    a zero divisor gives [NaN] (here [None]). *)
Definition js_rem (a b : Z) : option Z :=
  if b =? 0 then None else Some (Z.rem a b).

(** [x === n] for a number [x] that may be [NaN]: [NaN] equals nothing. *)
Definition strict_eq (x : option Z) (n : Z) : bool :=
  match x with
  | Some v => v =? n
  | None => false
  end.

(** ** Methods of [PomodoroTimer] (timer.ts) *)

(** [createInitialState()]; it reads [this.settings] only. *)
Definition createInitialState (s : PomodoroSettings) : TimerState :=
  let duration := workDuration s * 60 * 1000 in
  {| status := idle;
     currentSession := work;
     currentSet := 1;
     remainingTime := duration;
     totalDuration := duration |}.

(** [new PomodoroTimer(settings, callbacks)] *)
Definition construct (s : PartialSettings) (c : TimerCallbacks) : PomodoroTimer :=
  let merged := spread DEFAULT_SETTINGS s in
  {| settings := merged;
     state := createInitialState merged;
     callbacks := c;
     intervalId := None;
     startTime := 0;
     endTime := 0;
     pausedRemainingTime := 0 |}.

(** The world right after construction: nothing scheduled, nothing called. *)
Definition boot (s : PartialSettings) (c : TimerCallbacks) (now : Z) (h0 : nat)
  : World :=
  {| self := construct s c; clock := now; intervals := ∅; nextHandle := h0;
     log := [] |}.

Definition updateSettings (p : PartialSettings) : M unit :=
  update (fun t => with_settings (spread (settings t) p) t).

Definition updateCallbacks (c : TimerCallbacks) : M unit :=
  update (fun t => with_callbacks (spread_callbacks (callbacks t) c) t).

(** [getState()] returns a copy; records are values, so the copy is the
    record itself. *)
Definition getState (t : PomodoroTimer) : TimerState := state t.

Definition getSessionDuration (t : PomodoroTimer) (session : SessionType) : Z :=
  match session with
  | work => workDuration (settings t) * 60 * 1000
  | break => breakDuration (settings t) * 60 * 1000
  | longBreak => longBreakDuration (settings t) * 60 * 1000
  end.

Definition startTimer (duration : Z) : M unit :=
  now ← Date_now;
  update (with_startTime now) ;;
  t ← this;
  update (with_endTime (startTime t + duration)) ;;
  h ← setInterval;
  update (with_intervalId (Some h)).

Definition stopInterval : M unit :=
  t ← this;
  match intervalId t with
  | Some h => clearInterval h ;; update (with_intervalId None)
  | None => mret tt
  end.

Definition notifyStateChange : M unit :=
  t ← this;
  invoke onStateChange (OnStateChange (getState t)).

Definition getNextSession (t : PomodoroTimer) : option SessionType :=
  let currentSession := currentSession (state t) in
  let currentSet := currentSet (state t) in
  let totalSets := totalSets (settings t) in
  let longBreakInterval := longBreakInterval (settings t) in
  match currentSession with
  | work =>
      if currentSet >=? totalSets then None
      else if strict_eq (js_rem currentSet longBreakInterval) 0
           then Some longBreak
           else Some break
  | _ =>
      if currentSet >=? totalSets then None
      else Some work
  end.

(** [a === b] on session names. *)
Definition session_eqb (a b : SessionType) : bool :=
  match a, b with
  | work, work | break, break | longBreak, longBreak => true
  | _, _ => false
  end.

Definition handleSessionEnd : M unit :=
  stopInterval ;;
  t ← this;
  let endedSession := currentSession (state t) in
  let nextSession := getNextSession t in
  invoke onSessionEnd (OnSessionEnd endedSession nextSession) ;;
  match nextSession with
  | None =>
      update_state (with_status completed) ;;
      update_state (with_remainingTime 0) ;;
      invoke onComplete OnComplete
  | Some next =>
      update_state (with_currentSession next) ;;
      (if (session_eqb endedSession break || session_eqb endedSession longBreak)
          && session_eqb next work
       then update_state (fun s => with_currentSet (currentSet s + 1) s)
       else mret tt) ;;
      t' ← this;
      let duration := getSessionDuration t' next in
      update_state (with_totalDuration duration) ;;
      update_state (with_remainingTime duration) ;;
      update_state (with_status running) ;;
      startTimer duration
  end ;;
  notifyStateChange.

Definition tick : M unit :=
  now ← Date_now;
  t ← this;
  let remaining := Z.max 0 (endTime t - now) in
  update_state (with_remainingTime remaining) ;;
  if remaining =? 0
  then handleSessionEnd
  else (t' ← this; invoke onTick (OnTick (getState t'))).

Definition resume : M unit :=
  t ← this;
  match status (state t) with
  | paused =>
      update_state (with_status running) ;;
      startTimer (pausedRemainingTime t) ;;
      notifyStateChange
  | _ => mret tt
  end.

Definition start : M unit :=
  t ← this;
  match status (state t) with
  | running => mret tt
  | paused => resume
  | _ =>
      update_state (with_status running) ;;
      let duration := getSessionDuration t (currentSession (state t)) in
      update_state (with_totalDuration duration) ;;
      update_state (with_remainingTime duration) ;;
      startTimer duration ;;
      notifyStateChange
  end.

Definition pause : M unit :=
  t ← this;
  match status (state t) with
  | running =>
      stopInterval ;;
      t' ← this;
      update (with_pausedRemainingTime (remainingTime (state t'))) ;;
      update_state (with_status paused) ;;
      notifyStateChange
  | _ => mret tt
  end.

Definition reset : M unit :=
  stopInterval ;;
  t ← this;
  update (with_state (createInitialState (settings t))) ;;
  notifyStateChange.

Definition skip : M unit :=
  t ← this;
  match status (state t) with
  | idle | completed => mret tt
  | _ => handleSessionEnd
  end.

(** ** The host side *)

(** The host runs the callback of interval [h], which is [tick], if [h] is
    still scheduled; a cleared handle never fires. *)
Definition fire (h : nat) : M unit :=
  fun w => if decide (h ∈ intervals w) then tick w else (tt, w).

(** Wall-clock time moving by [d] milliseconds. *)
Definition elapse (d : Z) : M unit :=
  fun w => (tt, mkWorld (self w) (clock w + d) (intervals w) (nextHandle w) (log w)).

(** What can happen to an engine, one step at a time. *)
Inductive Action :=
| Start
| Pause
| Reset
| Skip
| Fire (h : nat)
| Elapse (d : Z)
| UpdateSettings (p : PartialSettings)
| UpdateCallbacks (c : TimerCallbacks).

Definition perform (a : Action) : M unit :=
  match a with
  | Start => start
  | Pause => pause
  | Reset => reset
  | Skip => skip
  | Fire h => fire h
  | Elapse d => elapse d
  | UpdateSettings p => updateSettings p
  | UpdateCallbacks c => updateCallbacks c
  end.

Fixpoint run (acts : list Action) (w : World) : World :=
  match acts with
  | [] => w
  | a :: rest => run rest (exec (perform a) w)
  end.

(** All four callback slots filled. *)
Definition all_hooks : TimerCallbacks := mkCallbacks true true true true.

(** ** Numbers and strings: progress and formatting *)

(** The result of a JavaScript division: a number, or one of the values
    a zero divisor gives. Finite results are exact rationals here (the
    rounding of doubles is left out). *)
Inductive number :=
| Finite (q : Q)
| PlusInfinity
| MinusInfinity
| NotANumber.

(** [a / b] on integers. *)
Definition js_div (a b : Z) : number :=
  if b =? 0 then
    if a =? 0 then NotANumber
    else if 0 <? a then PlusInfinity else MinusInfinity
  else Finite (inject_Z a / inject_Z b).

(** [x * k] for an integer [k]. *)
Definition js_mul (x : number) (k : Z) : number :=
  match x with
  | Finite q => Finite (q * inject_Z k)
  | NotANumber => NotANumber
  | PlusInfinity =>
      if k =? 0 then NotANumber
      else if 0 <? k then PlusInfinity else MinusInfinity
  | MinusInfinity =>
      if k =? 0 then NotANumber
      else if 0 <? k then MinusInfinity else PlusInfinity
  end.

(** [Math.ceil(a / b)] for integers [a] and [b > 0]. *)
Definition js_ceil_div (a b : Z) : Z := - ((- a) / b).

(** [n.toString()] for an integer. *)
Definition toString (n : Z) : string := NilEmpty.string_of_int (Z.to_int n).

(** [n] characters of [fill] repeated, starting in the middle of it at
    [cur]. *)
Fixpoint fill_cycle (fill cur : string) (n : nat) : string :=
  match n with
  | O => EmptyString
  | S n' =>
      match cur with
      | String c rest => String c (fill_cycle fill rest n')
      | EmptyString =>
          match fill with
          | String c rest => String c (fill_cycle fill rest n')
          | EmptyString => EmptyString
          end
      end
  end.

(** [s.padStart(target, fill)] *)
Definition padStart (target : nat) (fill s : string) : string :=
  if (target <=? String.length s)%nat then s
  else (fill_cycle fill fill (target - String.length s) ++ s)%string.

Definition getProgress (t : PomodoroTimer) : number :=
  if totalDuration (state t) =? 0 then Finite 0
  else
    let elapsed := totalDuration (state t) - remainingTime (state t) in
    js_mul (js_div elapsed (totalDuration (state t))) 100.

Definition formatTime (ms : Z) : string :=
  let totalSeconds := js_ceil_div ms 1000 in
  let minutes := totalSeconds / 60 in
  let seconds := Z.rem totalSeconds 60 in
  (padStart 2 "0" (toString minutes) ++ ":"
   ++ padStart 2 "0" (toString seconds))%string.

(** * Vocabulary of the properties *)

(** Settings for six sets with a long break after every third. *)
Definition six_by_three : PartialSettings :=
  mkPartial None None None (Some 6) (Some 3) None None None.

(** The session state a transition leaves behind, as a function of the
    engine before it: used to describe [handleSessionEnd] in one equation. *)
Definition after_end (t : PomodoroTimer) : TimerState :=
  let s := state t in
  match getNextSession t with
  | None => mkState completed (currentSession s) (currentSet s) 0 (totalDuration s)
  | Some next =>
      mkState running next
        (if (session_eqb (currentSession s) break
             || session_eqb (currentSession s) longBreak)
            && session_eqb next work
         then currentSet s + 1 else currentSet s)
        (getSessionDuration t next) (getSessionDuration t next)
  end.

(** The callbacks a transition invokes, in order. *)
Definition end_calls (t : PomodoroTimer) : list Event :=
  (if onSessionEnd (callbacks t)
   then [OnSessionEnd (currentSession (state t)) (getNextSession t)] else [])
  ++ match getNextSession t with
     | None => if onComplete (callbacks t) then [OnComplete] else []
     | Some _ => []
     end
  ++ (if onStateChange (callbacks t) then [OnStateChange (after_end t)] else []).

(** The engine and the host agree on the poll loop: the only scheduled
    interval is the one the engine holds, handles already given out are
    below the next one, and a loop is scheduled exactly while running. *)
Definition host_consistent (w : World) : Prop :=
  intervals w = match intervalId (self w) with
                | Some h => {[h]}
                | None => ∅
                end
  ∧ (∀ h, intervalId (self w) = Some h → (h < nextHandle w)%nat)
  ∧ (is_Some (intervalId (self w)) ↔ status (state (self w)) = running).

(** How often [onSessionEnd], and how often [onComplete], was invoked. *)
Fixpoint count_sessionEnd (l : list Event) : nat :=
  match l with
  | [] => 0
  | OnSessionEnd _ _ :: rest => S (count_sessionEnd rest)
  | _ :: rest => count_sessionEnd rest
  end.

Fixpoint count_complete (l : list Event) : nat :=
  match l with
  | [] => 0
  | OnComplete :: rest => S (count_complete rest)
  | _ :: rest => count_complete rest
  end.

(** A poll after each of the given delays. *)
Fixpoint countdown_polls (h : nat) (delays : list Z) : list Action :=
  match delays with
  | [] => []
  | d :: rest => Elapse d :: Fire h :: countdown_polls h rest
  end.

(** Every poll of the schedule happens before the deadline. *)
Fixpoint all_before (deadline now : Z) (delays : list Z) : Prop :=
  match delays with
  | [] => True
  | d :: rest => now + d < deadline ∧ all_before deadline (now + d) rest
  end.

(** The time a schedule of delays takes. *)
Definition total (delays : list Z) : Z := fold_right Z.add 0 delays.

(** [admissible ok acts w]: every action of the run may happen, according
    to [ok], in the world it meets. *)
Fixpoint admissible (ok : World → Action → Prop) (acts : list Action)
    (w : World) : Prop :=
  match acts with
  | [] => True
  | a :: rest => ok w a ∧ admissible ok rest (exec (perform a) w)
  end.

(** The set counter lies between 1 and the number of sets; it is below
    the number of sets during a break, and 1 while idle. *)
Definition set_in_range (w : World) : Prop :=
  let s := state (self w) in
  let n := totalSets (settings (self w)) in
  1 ≤ currentSet s ≤ n
  ∧ (currentSession s ≠ work → currentSet s < n)
  ∧ (status s = idle → currentSession s = work ∧ currentSet s = 1).

(** The configuration is replaced on the settings screen, that is while
    the engine is idle, and the new number of sets is at least one; an
    update that leaves the number of sets alone may come at any time. *)
Definition keeps_sets (w : World) (a : Action) : Prop :=
  match a with
  | UpdateSettings p =>
      p_totalSets p = None
      ∨ (status (state (self w)) = idle
         ∧ 1 ≤ totalSets (spread (settings (self w)) p))
  | _ => True
  end.

(** What the log holds at a point of a run towards [N] sets: one session
    end for every session behind us, and the completion only at the end. *)
Definition tally (N : Z) (w : World) : Prop :=
  let s := state (self w) in
  totalSets (settings (self w)) = N
  ∧ onSessionEnd (callbacks (self w)) = true
  ∧ onComplete (callbacks (self w)) = true
  ∧ 1 ≤ currentSet s ≤ N
  ∧ (currentSession s ≠ work → currentSet s < N)
  ∧ match status s with
    | completed =>
        Z.of_nat (count_sessionEnd (log w)) = 2 * N - 1
        ∧ count_complete (log w) = 1%nat
    | _ =>
        Z.of_nat (count_sessionEnd (log w))
        = 2 * (currentSet s - 1)
          + (if session_eqb (currentSession s) work then 0 else 1)
        ∧ count_complete (log w) = 0%nat
    end.

(** The actions of one run: it has not completed yet, it is not reset,
    and the number of sets is not reconfigured under way. *)
Definition within_run (w : World) (a : Action) : Prop :=
  status (state (self w)) ≠ completed
  ∧ match a with
    | Reset => False
    | UpdateSettings p => p_totalSets p = None
    | _ => True
    end.

(** A running work session of set [k], out of [N]. *)
Definition at_work (N k : Z) (w : World) : Prop :=
  status (state (self w)) = running
  ∧ currentSession (state (self w)) = work
  ∧ currentSet (state (self w)) = k
  ∧ totalSets (settings (self w)) = N.

(** The configured durations are not negative. *)
Definition durations_ok (s : PomodoroSettings) : Prop :=
  0 ≤ workDuration s ∧ 0 ≤ breakDuration s ∧ 0 ≤ longBreakDuration s.

(** The remaining time lies within the session, and the countdown ends
    no later than one session length from now. *)
Definition time_in_range (w : World) : Prop :=
  let s := state (self w) in
  durations_ok (settings (self w))
  ∧ 0 ≤ remainingTime s ≤ totalDuration s
  ∧ (status s = running → endTime (self w) - clock w ≤ totalDuration s)
  ∧ (status s = paused → pausedRemainingTime (self w) = remainingTime s).

(** Time does not run backwards, and a new configuration has durations
    that are not negative. *)
Definition clock_forward (w : World) (a : Action) : Prop :=
  match a with
  | Elapse d => 0 ≤ d
  | UpdateSettings p => durations_ok (spread (settings (self w)) p)
  | _ => True
  end.

(** The number a string of decimal digits denotes (leading zeros
    allowed); [None] when a character is not a digit. *)
Definition decimal_value (s : string) : option Z :=
  option_map Z.of_uint (NilEmpty.uint_of_string s).

(** * Further vocabulary: properties beyond the session rules *)

(** No restriction on the actions of a run. *)
Definition any_action (w : World) (a : Action) : Prop := True.

(** [{ ...p, ...q }] on partial settings: a field of [q] wins where it is
    present. *)
Definition merge_partial (p q : PartialSettings) : PartialSettings :=
  {| p_workDuration := from_option Some (p_workDuration p) (p_workDuration q);
     p_breakDuration :=
       from_option Some (p_breakDuration p) (p_breakDuration q);
     p_longBreakDuration :=
       from_option Some (p_longBreakDuration p) (p_longBreakDuration q);
     p_totalSets := from_option Some (p_totalSets p) (p_totalSets q);
     p_longBreakInterval :=
       from_option Some (p_longBreakInterval p) (p_longBreakInterval q);
     p_soundEnabled := from_option Some (p_soundEnabled p) (p_soundEnabled q);
     p_notificationEnabled :=
       from_option Some (p_notificationEnabled p) (p_notificationEnabled q);
     p_themeMode := from_option Some (p_themeMode p) (p_themeMode q) |}.

(** A completed engine stands at the work session of the last set. *)
Definition finished_at_last (N : Z) (w : World) : Prop :=
  status (state (self w)) = completed →
  currentSession (state (self w)) = work ∧ currentSet (state (self w)) = N.

(** Only the work duration changed, to 50 minutes. *)
Definition work_fifty : PartialSettings :=
  mkPartial (Some 50) None None None None None None None.

(** While running the countdown ends no later than the remaining time
    shown says; while paused the frozen remaining time is the one shown. *)
Definition countdown_bound (w : World) : Prop :=
  let s := state (self w) in
  (status s = running → endTime (self w) - clock w ≤ remainingTime s)
  ∧ (status s = paused → pausedRemainingTime (self w) = remainingTime s).

(** Time does not run backwards. *)
Definition time_forward (w : World) (a : Action) : Prop :=
  match a with
  | Elapse d => 0 ≤ d
  | _ => True
  end.

(** The configuration is replaced only while the engine is idle. *)
Definition reconfigured_when_idle (w : World) (a : Action) : Prop :=
  match a with
  | UpdateSettings _ => status (state (self w)) = idle
  | _ => True
  end.

(** Once started, the total duration is the configured length of the
    current session. *)
Definition duration_matches (w : World) : Prop :=
  status (state (self w)) ≠ idle →
  totalDuration (state (self w))
  = getSessionDuration (self w) (currentSession (state (self w))).

(** The state an observer of [onTick] and [onStateChange] received last. *)
Fixpoint last_snapshot (l : list Event) : option TimerState :=
  match l with
  | [] => None
  | e :: rest =>
      match last_snapshot rest with
      | Some s => Some s
      | None =>
          match e with
          | OnTick s | OnStateChange s => Some s
          | _ => None
          end
      end
  end.

(** Both snapshot slots are filled, and the last snapshot handed out is
    the current state ([s0] as long as none was handed out). *)
Definition observed (s0 : TimerState) (w : World) : Prop :=
  onTick (callbacks (self w)) = true
  ∧ onStateChange (callbacks (self w)) = true
  ∧ match last_snapshot (log w) with
    | Some s => s = state (self w)
    | None => state (self w) = s0
    end.

(** The callbacks registered at construction stay as they are. *)
Definition callbacks_kept (w : World) (a : Action) : Prop :=
  match a with
  | UpdateCallbacks _ => False
  | _ => True
  end.

(** The session ends reported in a log follow one another: each one ends
    the session the one before announced as next ([prev] at first); a
    report without a next session leaves the session as it is. *)
Fixpoint sessions_chain (prev : SessionType) (l : list Event) : Prop :=
  match l with
  | [] => True
  | OnSessionEnd ended next :: rest =>
      ended = prev ∧ sessions_chain (default prev next) rest
  | _ :: rest => sessions_chain prev rest
  end.

(** The session a log leaves us in, having started in [prev]. *)
Fixpoint session_after (prev : SessionType) (l : list Event) : SessionType :=
  match l with
  | [] => prev
  | OnSessionEnd _ next :: rest => session_after (default prev next) rest
  | _ :: rest => session_after prev rest
  end.

(** [onSessionEnd] is registered, and its reports so far lead from the
    first work session to the current session. *)
Definition announced (w : World) : Prop :=
  onSessionEnd (callbacks (self w)) = true
  ∧ sessions_chain work (log w)
  ∧ session_after work (log w) = currentSession (state (self w)).

(** One cycle with the callbacks of the construction: no reset, no
    change of callbacks. *)
Definition one_cycle (w : World) (a : Action) : Prop :=
  match a with
  | Reset | UpdateCallbacks _ => False
  | _ => True
  end.

(** * Helpers of the screens (main.ts) and of the audio player (audio.ts) *)

(** A JavaScript string is a sequence of UTF-16 code units. *)
Definition code_unit : Type := N.
Definition js_string : Type := list code_unit.

(** A text of ASCII characters as a JavaScript string. *)
Fixpoint code_units (s : string) : js_string :=
  match s with
  | EmptyString => []
  | String c rest => N_of_ascii c :: code_units rest
  end.

(** What [parseInt] strips from the start of its argument, the white
    space and the line terminators of ECMAScript: tab, line feed,
    vertical tab, form feed, carriage return, space, the no-break space
    (U+00A0), the space separators U+1680, U+2000 to U+200A, U+202F,
    U+205F and U+3000, the line and paragraph separators (U+2028,
    U+2029) and the byte order mark (U+FEFF). *)
Definition is_space (c : code_unit) : bool :=
  (((9 <=? c) && (c <=? 13))
   || (c =? 32) || (c =? 160) || (c =? 5760)
   || ((8192 <=? c) && (c <=? 8202))
   || (c =? 8232) || (c =? 8233) || (c =? 8239) || (c =? 8287)
   || (c =? 12288) || (c =? 65279))%N.

Fixpoint trim_start (s : js_string) : js_string :=
  match s with
  | c :: rest => if is_space c then trim_start rest else s
  | [] => []
  end.

(** The value of a decimal digit; [None] for any other code unit. *)
Definition digit_of (c : code_unit) : option Z :=
  if ((48 <=? c) && (c <=? 57))%N then Some (Z.of_N c - 48) else None.

(** The number the longest prefix of digits denotes, continuing from
    [acc]; [acc] is [None] as long as no digit was read. *)
Fixpoint read_digits (s : js_string) (acc : option Z) : option Z :=
  match s with
  | c :: rest =>
      match digit_of c with
      | Some d => read_digits rest (Some (10 * default 0 acc + d))
      | None => acc
      end
  | [] => acc
  end.

(** The minus sign and the plus sign. *)
Definition is_sign (c : code_unit) : bool := ((c =? 45) || (c =? 43))%N.

(** A text without the sign it may start with. *)
Definition strip_sign (s : js_string) : js_string :=
  match s with
  | c :: rest => if is_sign c then rest else s
  | [] => []
  end.

(** [parseInt(s, 10)]: white space is stripped, then a sign is taken,
    then as many digits as there are; [None] is [NaN], the result when
    there is no digit. *)
Definition parseInt_10 (s : js_string) : option Z :=
  let trimmed := trim_start s in
  let sign := match trimmed with
              | c :: _ => if (c =? 45)%N then -1 else 1
              | [] => 1
              end in
  option_map (Z.mul sign) (read_digits (strip_sign trimmed) None).

(** [getInputValue(id, defaultValue)], given the text of the input
    element [id] of the document. *)
Definition getInputValue (text : js_string) (defaultValue : Z) : Z :=
  match parseInt_10 text with
  | None => defaultValue
  | Some value => if value <=? 0 then defaultValue else value
  end.

(** What the settings form holds: the text of the five number inputs,
    the two check boxes and the selected theme. *)
Record FormInputs := mkForm {
  work_duration_text : js_string;
  break_duration_text : js_string;
  long_break_duration_text : js_string;
  total_sets_text : js_string;
  long_break_interval_text : js_string;
  sound_checked : bool;
  notification_checked : bool;
  theme_selected : ThemeMode
}.

Definition getFormSettings (f : FormInputs) : PomodoroSettings :=
  {| workDuration :=
       getInputValue (work_duration_text f) (workDuration DEFAULT_SETTINGS);
     breakDuration :=
       getInputValue (break_duration_text f) (breakDuration DEFAULT_SETTINGS);
     longBreakDuration :=
       getInputValue (long_break_duration_text f)
         (longBreakDuration DEFAULT_SETTINGS);
     totalSets :=
       getInputValue (total_sets_text f) (totalSets DEFAULT_SETTINGS);
     longBreakInterval :=
       getInputValue (long_break_interval_text f)
         (longBreakInterval DEFAULT_SETTINGS);
     soundEnabled := sound_checked f;
     notificationEnabled := notification_checked f;
     themeMode := theme_selected f |}.

(** The double-quote character. *)
Definition double_quote : string := String (ascii_of_nat 34) EmptyString.

(** One dot of the set indicators: a [div] element of class [className],
    with no content. *)
Definition dot_html (className : string) : string :=
  ("<div class=" ++ double_quote ++ className ++ double_quote
   ++ "></div>")%string.

(** The body of the loop of [generateSetIndicators], from [i] on, for at
    most [fuel] rounds. *)
Fixpoint indicators_from (fuel : nat) (i currentSet totalSets : Z)
    (html : string) : string :=
  match fuel with
  | O => html
  | S fuel' =>
      if i <=? totalSets then
        let className := "set-dot"%string in
        let className :=
          if i <? currentSet then (className ++ " completed")%string
          else if i =? currentSet then (className ++ " current")%string
          else className in
        indicators_from fuel' (i + 1) currentSet totalSets
          (html ++ dot_html className)%string
      else html
  end.

(** [generateSetIndicators(currentSet, totalSets)]; the loop runs
    [totalSets] times at most, which is the fuel it gets. *)
Definition generateSetIndicators (currentSet totalSets : Z) : string :=
  indicators_from (Z.to_nat totalSets) 1 currentSet totalSets EmptyString.

(** [n] copies of [s] in a row. *)
Fixpoint repeat_string (n : nat) (s : string) : string :=
  match n with
  | O => EmptyString
  | S n' => (s ++ repeat_string n' s)%string
  end.

(** [Math.min] and [Math.max] of two numbers. *)
Definition js_min (a b : number) : number :=
  match a, b with
  | NotANumber, _ | _, NotANumber => NotANumber
  | MinusInfinity, _ | _, MinusInfinity => MinusInfinity
  | PlusInfinity, x | x, PlusInfinity => x
  | Finite p, Finite q => Finite (if Qle_bool p q then p else q)
  end.

Definition js_max (a b : number) : number :=
  match a, b with
  | NotANumber, _ | _, NotANumber => NotANumber
  | PlusInfinity, _ | _, PlusInfinity => PlusInfinity
  | MinusInfinity, x | x, MinusInfinity => x
  | Finite p, Finite q => Finite (if Qle_bool p q then q else p)
  end.

(** The fields of [AudioManager]; [audioContext] is [true] once the
    [AudioContext] was created. *)
Record AudioManager := mkAudio {
  audioContext : bool;
  enabled : bool;
  volume : number
}.

Definition setVolume (v : number) (a : AudioManager) : AudioManager :=
  {| audioContext := audioContext a;
     enabled := enabled a;
     volume := js_max (Finite 0) (js_min (Finite 1) v) |}.

(** The number a list of decimal digits denotes, continuing from [acc]. *)
Fixpoint uint_value (d : Decimal.uint) (acc : Z) : Z :=
  match d with
  | Decimal.Nil => acc
  | Decimal.D0 l => uint_value l (10 * acc + 0)
  | Decimal.D1 l => uint_value l (10 * acc + 1)
  | Decimal.D2 l => uint_value l (10 * acc + 2)
  | Decimal.D3 l => uint_value l (10 * acc + 3)
  | Decimal.D4 l => uint_value l (10 * acc + 4)
  | Decimal.D5 l => uint_value l (10 * acc + 5)
  | Decimal.D6 l => uint_value l (10 * acc + 6)
  | Decimal.D7 l => uint_value l (10 * acc + 7)
  | Decimal.D8 l => uint_value l (10 * acc + 8)
  | Decimal.D9 l => uint_value l (10 * acc + 9)
  end.

(** A text at which the digits of a number end: it is empty or begins
    with a code unit that is not a digit. *)
Definition ends_number (rest : js_string) : Prop :=
  match rest with
  | [] => True
  | c :: _ => digit_of c = None
  end.

(** A text that holds no number for [parseInt]: after the white space
    and the sign, if there is one, it is empty or begins with something
    other than a digit. *)
Definition no_number (text : js_string) : Prop :=
  ends_number (strip_sign (trim_start text)).

(** The three kinds of dot of the set indicators. *)
Definition completed_dot : string := dot_html "set-dot completed".
Definition current_dot : string := dot_html "set-dot current".
Definition plain_dot : string := dot_html "set-dot".

(** The indicators for set [c] of [n], with [1 <= c <= n]: the sets
    behind us, the current one, the ones ahead. *)
Definition indicators_layout (c n : Z) : string :=
  (repeat_string (Z.to_nat (c - 1)) completed_dot
   ++ current_dot
   ++ repeat_string (Z.to_nat (n - c)) plain_dot)%string.

(** What the form of the settings screen holds when nothing usable was
    typed. *)
Definition blank_form : FormInputs :=
  mkForm [] (code_units "abc") (code_units "0") (code_units "-3")
    (code_units " 1.5") true false dark.

(** How often a work session was reported to end into a long break. *)
Fixpoint count_longBreaks (l : list Event) : nat :=
  match l with
  | [] => 0
  | OnSessionEnd _ (Some longBreak) :: rest => S (count_longBreaks rest)
  | _ :: rest => count_longBreaks rest
  end.

(** On the way through [N] sets with a long break every [L] sets: the
    long breaks reported so far are those of the sets behind us. *)
Definition long_tally (N L : Z) (w : World) : Prop :=
  let s := state (self w) in
  tally N w
  ∧ longBreakInterval (settings (self w)) = L
  ∧ Z.of_nat (count_longBreaks (log w))
    = match status s with
      | completed => (N - 1) / L
      | _ =>
          if session_eqb (currentSession s) work
          then (currentSet s - 1) / L
          else currentSet s / L
      end.

(** The actions of one run in which neither the number of sets nor the
    long-break interval is reconfigured. *)
Definition within_fixed_run (w : World) (a : Action) : Prop :=
  within_run w a
  ∧ match a with
    | UpdateSettings p => p_longBreakInterval p = None
    | _ => True
    end.

(** What the host may do while the engine waits: after each delay it
    runs the callback of some interval handle. *)
Fixpoint stray_polls (ps : list (Z * nat)) : list Action :=
  match ps with
  | [] => []
  | (d, h) :: rest => Elapse d :: Fire h :: stray_polls rest
  end.

(** The time a sequence of host polls takes in all. *)
Fixpoint total_delay (ps : list (Z * nat)) : Z :=
  match ps with
  | [] => 0
  | p :: rest => fst p + total_delay rest
  end.

(** * Tactics *)

(** Unfolding the methods down to record operations. *)
Ltac unfold_methods :=
  cbv beta iota zeta delta
    [exec perform start pause resume reset skip tick handleSessionEnd
     startTimer stopInterval notifyStateChange invoke update update_state
     this Date_now setInterval clearInterval updateSettings updateCallbacks
     fire elapse mbind mret M_bind M_ret getState
     with_status with_currentSession with_currentSet with_remainingTime
     with_totalDuration with_settings with_state with_callbacks
     with_intervalId with_startTime with_endTime with_pausedRemainingTime
     getNextSession getSessionDuration session_eqb createInitialState
     self clock intervals nextHandle log
     settings state callbacks intervalId startTime endTime pausedRemainingTime
     status currentSession currentSet remainingTime totalDuration
     onTick onSessionEnd onComplete onStateChange
     fst snd andb orb negb] in *.

(** A world down to the fields of its records. *)
Ltac destruct_world w :=
  let t := fresh "t" in
  destruct w as [t ? ? ? ?];
  let s := fresh "s" in
  let c := fresh "cb" in
  destruct t as [? s c ? ? ? ?];
  destruct s as [? ? ? ? ?]; destruct c as [? ? ? ?].

(** Unfold the methods and split on what they branch on. *)
Ltac case_methods :=
  unfold_methods;
  repeat (match goal with
          | |- context [match ?x with _ => _ end] => is_var x; destruct x
          | |- context [if ?x then _ else _] =>
              lazymatch x with
              | context [match _ with _ => _ end] => fail
              | _ => destruct x eqn:?
              end
          end; unfold_methods).

(** The set of scheduled intervals after a method: one handle cleared,
    one added. *)
Ltac solve_intervals :=
  rewrite ?difference_diag_L, ?union_empty_r_L; reflexivity.

(** The handle the engine holds is below the next free one. *)
Ltac fresh_handle :=
  let h := fresh "h" in
  let Heq := fresh "Heq" in
  intros h Heq; try discriminate Heq; injection Heq as Heq; lia.

(** The cases of a method for [time_in_range]. *)
Ltac time_cases w :=
  unfold time_in_range, durations_ok; destruct_world w;
  case_methods; cbn;
  intros ((? & ? & ?) & ? & ? & ?);
  repeat match goal with
    | H : ?x = ?x → _ |- _ => specialize (H eq_refl)
    end;
  repeat split; intros; try lia; try discriminate; try congruence;
  try tauto.

(** * Properties *)

Lemma handleSessionEnd_state (w : World) :
  state (self (exec handleSessionEnd w)) = after_end (self w).
Proof.
  unfold after_end. destruct_world w.
  case_methods; try reflexivity.
Qed.

Lemma handleSessionEnd_log (w : World) :
  log (exec handleSessionEnd w) = log w ++ end_calls (self w).
Proof.
  unfold end_calls, after_end. destruct_world w.
  case_methods;
    rewrite <- ?app_assoc, ?app_nil_r; try reflexivity; try discriminate.
Qed.

Lemma handleSessionEnd_settings (w : World) :
  settings (self (exec handleSessionEnd w)) = settings (self w)
  ∧ callbacks (self (exec handleSessionEnd w)) = callbacks (self w)
  ∧ clock (exec handleSessionEnd w) = clock w.
Proof. destruct_world w. case_methods; auto. Qed.

(** What a transition does to the countdown and to the host's intervals. *)
Lemma handleSessionEnd_countdown (w : World) :
  let w' := exec handleSessionEnd w in
  let cleared :=
    match intervalId (self w) with
    | Some h => intervals w ∖ {[h]}
    | None => intervals w
    end in
  match getNextSession (self w) with
  | None =>
      intervalId (self w') = None ∧ intervals w' = cleared
      ∧ nextHandle w' = nextHandle w
      ∧ endTime (self w') = endTime (self w)
  | Some next =>
      intervalId (self w') = Some (nextHandle w)
      ∧ intervals w' = {[nextHandle w]} ∪ cleared
      ∧ nextHandle w' = S (nextHandle w)
      ∧ endTime (self w') = clock w + getSessionDuration (self w) next
  end
  ∧ pausedRemainingTime (self w') = pausedRemainingTime (self w).
Proof. destruct_world w. case_methods; auto. Qed.

(** ** Operations in a state where they do not apply *)

(** C8. An operation invoked in a state where it is not valid changes
    nothing at all: [pause()] when the status is not running, [start()]
    when it is running and [skip()] when it is idle or completed return
    the world they were given: same session state, same engine fields,
    same scheduled intervals, and no callback invoked. *)
Theorem invalid_state_operations_are_noops (w : World) :
  (status (state (self w)) ≠ running → pause w = (tt, w))
  ∧ (status (state (self w)) = running → start w = (tt, w))
  ∧ (status (state (self w)) = idle ∨ status (state (self w)) = completed →
     skip w = (tt, w)).
Proof.
  destruct_world w. unfold_methods.
  repeat split.
  - intros H. destruct status0; congruence.
  - intros ->. reflexivity.
  - intros [-> | ->]; reflexivity.
Qed.

Lemma invalid_state_operations_are_noops_witness :
  let w := boot no_settings all_hooks 0 1 in
  pause w = (tt, w) ∧ skip w = (tt, w)
  ∧ start (exec start w) = (tt, exec start w).
Proof.
  intros w.
  destruct (invalid_state_operations_are_noops w) as (Hp & _ & Hk).
  destruct (invalid_state_operations_are_noops (exec start w)) as (_ & Hs & _).
  split; [apply Hp; discriminate |].
  split; [apply Hk; left; reflexivity |].
  apply Hs. reflexivity.
Defined.

(** ** Reset *)

Lemma spread_all (base s : PomodoroSettings) : spread base (all_settings s) = s.
Proof. destruct s; reflexivity. Qed.

(** C6. From any status, [reset()] leaves the session state of a freshly
    constructed engine with the same configuration: idle, work, set 1,
    and the configured work duration as both remaining and total time.
    The configuration itself is kept, and a second reset changes nothing
    in the session state. *)
Theorem reset_gives_fresh_state (w : World) :
  let cfg := settings (self w) in
  let w' := exec reset w in
  state (self w') = state (construct (all_settings cfg) (callbacks (self w)))
  ∧ state (self w') =
      {| status := idle; currentSession := work; currentSet := 1;
         remainingTime := workDuration cfg * 60 * 1000;
         totalDuration := workDuration cfg * 60 * 1000 |}
  ∧ settings (self w') = cfg
  ∧ state (self (exec reset w')) = state (self w').
Proof.
  cbv zeta. unfold construct. rewrite spread_all.
  destruct_world w. case_methods; auto.
Qed.

(** ** The session-transition rule *)

(** C1. The transition taken when a session ends, on any engine.
    From [work]: no next session when [currentSet >= totalSets], else a
    long break when [currentSet % longBreakInterval] is [0], else a short
    break; the set counter is not touched. From [break] or [longBreak]:
    no next session when [currentSet >= totalSets], else [work] with the
    set counter one higher. The counter changes in no other case. *)
Theorem session_transition_rule (w : World) :
  let s := state (self w) in
  let cfg := settings (self w) in
  let next := getNextSession (self w) in
  let s' := state (self (exec handleSessionEnd w)) in
  (currentSession s = work →
     (totalSets cfg ≤ currentSet s →
        next = None ∧ status s' = completed ∧ currentSet s' = currentSet s)
     ∧ (currentSet s < totalSets cfg →
        js_rem (currentSet s) (longBreakInterval cfg) = Some 0 →
        next = Some longBreak ∧ status s' = running
        ∧ currentSession s' = longBreak ∧ currentSet s' = currentSet s)
     ∧ (currentSet s < totalSets cfg →
        js_rem (currentSet s) (longBreakInterval cfg) ≠ Some 0 →
        next = Some break ∧ status s' = running
        ∧ currentSession s' = break ∧ currentSet s' = currentSet s))
  ∧ (currentSession s = break ∨ currentSession s = longBreak →
     (totalSets cfg ≤ currentSet s →
        next = None ∧ status s' = completed ∧ currentSet s' = currentSet s)
     ∧ (currentSet s < totalSets cfg →
        next = Some work ∧ status s' = running
        ∧ currentSession s' = work ∧ currentSet s' = currentSet s + 1))
  ∧ (currentSet s' ≠ currentSet s →
     (currentSession s = break ∨ currentSession s = longBreak)
     ∧ currentSession s' = work ∧ currentSet s' = currentSet s + 1).
Proof.
  cbv zeta. rewrite handleSessionEnd_state. unfold after_end.
  destruct w as [[cfg [st ses n rt td] cb iid t0 t1 pr] clk ivs nh lg].
  unfold getNextSession, js_rem, strict_eq. cbn [self state settings
    currentSession currentSet status].
  destruct ses; (split; [| split]).
  all: intros H; try (discriminate H || (destruct H; discriminate)).
  all: destruct (Z.geb_spec n (totalSets cfg));
       destruct (Z.eqb_spec (longBreakInterval cfg) 0);
       try destruct (Z.eqb_spec (Z.rem n (longBreakInterval cfg)) 0);
       cbn in *; repeat split; intros; try lia; try congruence; auto.
Qed.

Lemma session_transition_rule_witness :
  let w := run [Start; Skip; Skip; Skip; Skip]
             (boot six_by_three all_hooks 0 1) in
  let w' := exec handleSessionEnd w in
  (currentSession (state (self w)) = work ∧ currentSet (state (self w)) = 3)
  ∧ (getNextSession (self w) = Some longBreak
     ∧ currentSet (state (self w')) = 3)
  ∧ (getNextSession (self w') = Some work
     ∧ currentSet (state (self (exec handleSessionEnd w'))) = 4).
Proof.
  intros w w'.
  destruct (session_transition_rule w) as (Hwork & _ & _).
  destruct (session_transition_rule w') as (_ & Hbreak & _).
  split; [split; reflexivity |].
  split.
  - destruct (Hwork eq_refl) as (_ & Hlong & _).
    destruct (Hlong ltac:(vm_compute; reflexivity) eq_refl) as (? & _ & _ & ?).
    split; assumption.
  - destruct (Hbreak ltac:(right; reflexivity)) as (_ & Hnext).
    destruct (Hnext ltac:(vm_compute; reflexivity)) as (? & _ & _ & ?).
    split; assumption.
Defined.

(** ** Skip *)

Lemma tick_expired (w : World) :
  endTime (self w) ≤ clock w →
  tick w = handleSessionEnd (exec (update_state (with_remainingTime 0)) w).
Proof.
  intros H. unfold tick.
  cbv beta iota zeta delta [mbind M_bind Date_now this exec].
  rewrite Z.max_l by lia. reflexivity.
Qed.

Lemma tick_counting (w : World) :
  clock w < endTime (self w) →
  let s' := with_remainingTime (endTime (self w) - clock w) (state (self w)) in
  exec tick w =
    mkWorld (with_state s' (self w)) (clock w) (intervals w) (nextHandle w)
      (log w ++ if onTick (callbacks (self w)) then [OnTick s'] else []).
Proof.
  intros H. unfold tick.
  cbv beta iota zeta delta [mbind M_bind Date_now this exec].
  rewrite Z.max_r by lia.
  destruct (Z.eqb_spec (endTime (self w) - clock w) 0); [lia |].
  destruct_world w. case_methods; rewrite ?app_nil_r; reflexivity.
Qed.

Lemma handleSessionEnd_ignores_remaining (r : Z) (w : World) :
  handleSessionEnd (exec (update_state (with_remainingTime r)) w)
  = handleSessionEnd w.
Proof. destruct_world w. case_methods; reflexivity. Qed.

Lemma skip_running (w : World) :
  status (state (self w)) = running ∨ status (state (self w)) = paused →
  skip w = handleSessionEnd w.
Proof.
  intros H. unfold skip. cbv beta iota zeta delta [mbind M_bind this].
  destruct H as [-> | ->]; reflexivity.
Qed.

(** C5. For a running engine, [skip()] and the poll that finds the
    countdown at zero have the same outcome: the same session state and
    the same callbacks in the same order (the session end, then the
    completion if there is no next session, then the state change). This
    holds whenever each of the two happens ([d1], [d2] after now); when
    they happen at the same instant the whole world is the same. *)
Theorem skip_same_as_natural_expiry (w : World) (d1 d2 : Z) :
  status (state (self w)) = running →
  endTime (self w) ≤ clock w + d2 →
  let skipped := exec skip (exec (elapse d1) w) in
  let expired := exec tick (exec (elapse d2) w) in
  state (self skipped) = state (self expired)
  ∧ log skipped = log w ++ end_calls (self w)
  ∧ log expired = log w ++ end_calls (self w)
  ∧ (d1 = d2 → skipped = expired).
Proof.
  intros Hrun Hend skipped expired.
  assert (Hs : skipped = exec handleSessionEnd (exec (elapse d1) w)).
  { unfold skipped, exec at 1. rewrite skip_running; [reflexivity |].
    left. exact Hrun. }
  assert (He : expired = exec handleSessionEnd (exec (elapse d2) w)).
  { unfold expired, exec at 1. rewrite tick_expired by exact Hend.
    rewrite handleSessionEnd_ignores_remaining. reflexivity. }
  rewrite Hs, He, !handleSessionEnd_state, !handleSessionEnd_log.
  repeat split; try reflexivity.
  intros ->. reflexivity.
Qed.

Lemma skip_same_as_natural_expiry_witness :
  let w := exec start (boot no_settings all_hooks 0 1) in
  state (self (exec skip (exec (elapse 1000) w)))
  = state (self (exec tick (exec (elapse 1500000) w))).
Proof.
  intros w.
  apply (skip_same_as_natural_expiry w 1000 1500000);
    [reflexivity | vm_compute; discriminate].
Defined.

(** ** Pause and resume *)

(** ** The poll loop and the host's intervals *)

Lemma boot_consistent p cb now h0 : host_consistent (boot p cb now h0).
Proof.
  repeat split; cbn; try discriminate.
  - intros [? ?]; discriminate.
Qed.

Lemma perform_consistent (a : Action) (w : World) :
  host_consistent w → host_consistent (exec (perform a) w).
Proof.
  unfold host_consistent. intros (Hi & Hn & Hs).
  destruct_world w.
  cbn [self intervals nextHandle intervalId state status] in Hi, Hn, Hs.
  assert (Hcases : (∃ h, intervalId0 = Some h ∧ status0 = running
                         ∧ (h < nextHandle0)%nat)
                   ∨ (intervalId0 = None ∧ status0 ≠ running)).
  { destruct intervalId0 as [h|].
    - left. exists h. repeat split; auto. apply Hs. eauto.
    - right. split; auto. intros E. apply Hs in E. destruct E; discriminate. }
  clear Hn Hs.
  destruct Hcases as [(h & -> & -> & Hlt) | (-> & Hne)]; subst intervals0.
  - destruct a; case_methods.
    all: split; [solve_intervals | split; [fresh_handle |]].
    all: split; intros H; try reflexivity; eauto; try discriminate;
         try (destruct H; discriminate).
  - destruct a; case_methods; try congruence.
    all: split; [solve_intervals | split; [fresh_handle |]].
    all: split; intros H; try reflexivity; eauto; try discriminate;
         try (destruct H; discriminate); try congruence.
Qed.

Lemma run_consistent (acts : list Action) (w : World) :
  host_consistent w → host_consistent (run acts w).
Proof.
  revert w. induction acts as [| a acts IH]; intros w Hw; cbn; [exact Hw |].
  apply IH, perform_consistent, Hw.
Qed.

Lemma run_cons (a : Action) (rest : list Action) (w : World) :
  run (a :: rest) w = run rest (exec (perform a) w).
Proof. reflexivity. Qed.

Lemma run_app (xs ys : list Action) (w : World) :
  run (xs ++ ys) w = run ys (run xs w).
Proof. revert w. induction xs as [| a xs IH]; intros w; cbn; auto. Qed.

Lemma fire_active (h : nat) (w : World) : h ∈ intervals w → fire h w = tick w.
Proof. intros H. unfold fire. destruct (decide (h ∈ intervals w)); tauto. Qed.

Lemma fire_stale (h : nat) (w : World) : h ∉ intervals w → fire h w = (tt, w).
Proof. intros H. unfold fire. destruct (decide (h ∈ intervals w)); tauto. Qed.

Lemma count_sessionEnd_app (xs ys : list Event) :
  count_sessionEnd (xs ++ ys) = (count_sessionEnd xs + count_sessionEnd ys)%nat.
Proof. induction xs as [| [] xs IH]; cbn; auto. Qed.

Lemma count_complete_app (xs ys : list Event) :
  count_complete (xs ++ ys) = (count_complete xs + count_complete ys)%nat.
Proof. induction xs as [| [] xs IH]; cbn; auto. Qed.

Lemma end_calls_sessionEnd (t : PomodoroTimer) :
  count_sessionEnd (end_calls t) = if onSessionEnd (callbacks t) then 1%nat else 0%nat.
Proof.
  unfold end_calls.
  destruct (onSessionEnd (callbacks t)), (getNextSession t),
    (onComplete (callbacks t)), (onStateChange (callbacks t)); reflexivity.
Qed.

Lemma end_calls_complete (t : PomodoroTimer) :
  count_complete (end_calls t) =
    match getNextSession t with
    | None => if onComplete (callbacks t) then 1%nat else 0%nat
    | Some _ => 0%nat
    end.
Proof.
  unfold end_calls.
  destruct (onSessionEnd (callbacks t)), (getNextSession t),
    (onComplete (callbacks t)), (onStateChange (callbacks t)); reflexivity.
Qed.

(** The engine a transition leaves depends on the engine before it
    (its remaining time apart), the clock and the next free handle. *)
Lemma handleSessionEnd_self (w1 w2 : World) :
  with_state (with_remainingTime 0 (state (self w1))) (self w1)
  = with_state (with_remainingTime 0 (state (self w2))) (self w2) →
  clock w1 = clock w2 → nextHandle w1 = nextHandle w2 →
  self (exec handleSessionEnd w1) = self (exec handleSessionEnd w2).
Proof.
  destruct_world w1. destruct_world w2. unfold_methods.
  intros H -> ->. injection H as -> -> -> -> -> -> -> -> -> -> -> -> ->.
  case_methods; try reflexivity; try congruence.
Qed.

(** ** The countdown *)

Lemma with_remainingTime_twice (r r' : Z) (s : TimerState) :
  with_remainingTime r (with_remainingTime r' s) = with_remainingTime r s.
Proof. reflexivity. Qed.

Lemma polls_before_end (h : nat) (delays : list Z) (w : World) :
  h ∈ intervals w →
  all_before (endTime (self w)) (clock w) delays →
  let w' := run (countdown_polls h delays) w in
  clock w' = clock w + total delays
  ∧ intervals w' = intervals w
  ∧ nextHandle w' = nextHandle w
  ∧ count_sessionEnd (log w') = count_sessionEnd (log w)
  ∧ ∃ r, self w' = with_state (with_remainingTime r (state (self w))) (self w).
Proof.
  revert w. induction delays as [| d delays IH]; intros w Hh Hbefore.
  - cbn. repeat split; try lia.
    exists (remainingTime (state (self w))). destruct_world w. reflexivity.
  - destruct Hbefore as [Hd Hrest].
    cbn [countdown_polls run perform].
    set (w1 := exec (fire h) (exec (elapse d) w)).
    assert (E : w1 = exec tick (exec (elapse d) w)).
    { unfold w1, exec at 1 3. rewrite fire_active; auto. }
    rewrite tick_counting in E by (cbn; lia). cbn in E.
    destruct (IH w1) as (Hc & Hi & Hn & Hl & r & Hr).
    + rewrite E. exact Hh.
    + rewrite E. cbn. exact Hrest.
    + cbv zeta. rewrite Hc, Hi, Hn, Hl, Hr, E. cbn.
      split; [unfold total; cbn; lia |].
      repeat split.
      * rewrite count_sessionEnd_app.
        destruct (onTick (callbacks (self w))); cbn; lia.
      * exists r. destruct_world w. reflexivity.
Qed.

Lemma countdown_polls_app (h : nat) (xs ys : list Z) :
  countdown_polls h (xs ++ ys) = countdown_polls h xs ++ countdown_polls h ys.
Proof. induction xs as [| d xs IH]; cbn; [| rewrite IH]; reflexivity. Qed.

(** C2. While the poll loop [h] of a running engine is scheduled, the
    outcome of a poll depends on the wall clock alone. Take any schedule
    of earlier polls ([skipped], all before the deadline) followed by a
    poll at time [now]: the engine is the same as if the earlier polls
    had never happened and a single poll came at [now]. If [now] is
    before the deadline the remaining time is [max(0, endTime - now)],
    the time really left. If the deadline has passed, the session-end
    transition has run: the loop [h] is no longer scheduled, so it fires
    no more, and [onSessionEnd] has been invoked exactly once (when the
    slot is filled), on either schedule. *)
Theorem countdown_follows_wall_clock
    (w : World) (h : nat) (skipped : list Z) (d : Z) :
  host_consistent w →
  intervalId (self w) = Some h →
  all_before (endTime (self w)) (clock w) skipped →
  let deadline := endTime (self w) in
  let now := clock w + total skipped + d in
  let every := run (countdown_polls h (skipped ++ [d])) w in
  let late := run [Elapse (total skipped + d); Fire h] w in
  let ended := if onSessionEnd (callbacks (self w)) then 1%nat else 0%nat in
  (clock every = now ∧ clock late = now ∧ self every = self late)
  ∧ (now < deadline →
     state (self late)
     = with_remainingTime (Z.max 0 (deadline - now)) (state (self w))
     ∧ remainingTime (state (self late)) = deadline - now
     ∧ intervals late = intervals w
     ∧ count_sessionEnd (log late) = count_sessionEnd (log w)
     ∧ count_sessionEnd (log every) = count_sessionEnd (log w))
  ∧ (deadline ≤ now →
     state (self late) = after_end (self w)
     ∧ (h ∉ intervals late)
     ∧ fire h late = (tt, late)
     ∧ count_sessionEnd (log late) = (count_sessionEnd (log w) + ended)%nat
     ∧ count_sessionEnd (log every) = (count_sessionEnd (log w) + ended)%nat).
Proof.
  intros (Hi & Hn & _) Hid Hbefore deadline now every late ended.
  rewrite Hid in Hi. specialize (Hn h Hid).
  assert (Hh : h ∈ intervals w) by (rewrite Hi; apply elem_of_singleton; reflexivity).
  destruct (polls_before_end h skipped w Hh Hbefore)
    as (Hc & Hiv & Hnh & Hlog & r & Hself).
  set (w' := run (countdown_polls h skipped) w) in *.
  assert (Eevery : every = exec tick (exec (elapse d) w')).
  { unfold every. rewrite countdown_polls_app, run_app. fold w'.
    cbn [countdown_polls run perform]. unfold exec at 1 3.
    rewrite fire_active; [reflexivity |]. cbn. rewrite Hiv. exact Hh. }
  assert (Elate : late = exec tick (exec (elapse (total skipped + d)) w)).
  { unfold late. cbn [run perform]. unfold exec at 1 3.
    rewrite fire_active; [reflexivity |]. exact Hh. }
  assert (Hclock : clock (exec (elapse d) w') = now)
    by (cbn; rewrite Hc; reflexivity).
  assert (Hclock' : clock (exec (elapse (total skipped + d)) w) = now)
    by (cbn; unfold now; lia).
  assert (Hend : endTime (self (exec (elapse d) w')) = deadline)
    by (cbn; rewrite Hself; reflexivity).
  destruct (Z.lt_ge_cases now deadline) as [Hlt | Hge].
  - (* before the deadline: both schedules just count *)
    rewrite tick_counting in Eevery by (rewrite Hclock, Hend; exact Hlt).
    rewrite tick_counting in Elate by (rewrite Hclock'; exact Hlt).
    rewrite Hclock, Hend in Eevery. rewrite Hclock' in Elate.
    cbn [self clock intervals nextHandle log exec elapse snd] in Eevery, Elate.
    fold deadline in Elate.
    split; [| split; [| intros; lia]].
    + rewrite Eevery, Elate. cbn [clock self]. rewrite Hself.
      repeat split; try lia.
    + intros _. rewrite Eevery, Elate. cbn [self log intervals state].
      rewrite Z.max_r by lia.
      repeat split; rewrite ?count_sessionEnd_app; cbn.
      * destruct (onTick (callbacks (self w))); cbn; lia.
      * rewrite Hself. cbn.
        destruct (onTick (callbacks (self w))); cbn; lia.
  - (* at or after the deadline: both schedules run the transition *)
    unfold exec at 1 in Eevery. unfold exec at 1 in Elate.
    rewrite tick_expired in Eevery by (rewrite Hclock, Hend; exact Hge).
    rewrite tick_expired in Elate by (rewrite Hclock'; exact Hge).
    rewrite handleSessionEnd_ignores_remaining in Eevery, Elate.
    fold (exec handleSessionEnd (exec (elapse d) w')) in Eevery.
    fold (exec handleSessionEnd (exec (elapse (total skipped + d)) w)) in Elate.
    assert (Hcd := handleSessionEnd_countdown
                     (exec (elapse (total skipped + d)) w)).
    cbv zeta in Hcd. rewrite <- Elate in Hcd.
    cbn [self exec elapse snd intervals nextHandle clock] in Hcd.
    rewrite Hid, Hi in Hcd.
    assert (Hout : h ∉ intervals late).
    { destruct (getNextSession (self w)); destruct Hcd as ((_ & -> & _) & _).
      - intros Hin. apply elem_of_union in Hin as [Hin | Hin].
        + apply elem_of_singleton in Hin. lia.
        + rewrite difference_diag_L in Hin.
          apply not_elem_of_empty in Hin. exact Hin.
      - rewrite difference_diag_L. apply not_elem_of_empty. }
    split; [| split; [intros; lia |]].
    + rewrite Eevery, Elate.
      rewrite !(proj2 (proj2 (handleSessionEnd_settings _))).
      repeat split; try (cbn; lia).
      apply handleSessionEnd_self; cbn; try lia.
      rewrite Hself. destruct_world w. reflexivity.
    + intros _. repeat split.
      * rewrite Elate, handleSessionEnd_state. reflexivity.
      * exact Hout.
      * apply fire_stale, Hout.
      * rewrite Elate, handleSessionEnd_log, count_sessionEnd_app,
          end_calls_sessionEnd. reflexivity.
      * rewrite Eevery, handleSessionEnd_log, count_sessionEnd_app,
          end_calls_sessionEnd. cbn [self log exec elapse snd].
        rewrite Hlog, Hself. reflexivity.
Qed.

Lemma countdown_follows_wall_clock_witness :
  let w := exec start (boot no_settings all_hooks 0 1) in
  self (run (countdown_polls 1 ([100; 250] ++ [100])) w)
  = self (run [Elapse (total [100; 250] + 100); Fire 1] w).
Proof.
  intros w.
  assert (Hw : host_consistent w)
    by apply (perform_consistent Start), boot_consistent.
  assert (Hb : all_before (endTime (self w)) (clock w) [100; 250])
    by (repeat split; reflexivity).
  destruct (countdown_follows_wall_clock w 1 [100; 250] 100 Hw eq_refl Hb)
    as ((_ & _ & H) & _).
  exact H.
Defined.

(** ** Pause and resume *)

(** While no interval is scheduled, whatever handles the host fires, only
    the clock moves. *)
Lemma stray_polls_idle (ps : list (Z * nat)) (w : World) :
  intervals w = ∅ →
  run (stray_polls ps) w = exec (elapse (total_delay ps)) w.
Proof.
  revert w. induction ps as [| [d h] ps IH]; intros w Hw.
  - destruct w as [t c i n l]. cbn. f_equal. lia.
  - change (run (stray_polls ((d, h) :: ps)) w)
      with (run (stray_polls ps) (exec (fire h) (exec (elapse d) w))).
    assert (Hstale : exec (fire h) (exec (elapse d) w) = exec (elapse d) w).
    { unfold exec at 1. rewrite fire_stale; [reflexivity |].
      change (intervals (exec (elapse d) w)) with (intervals w).
      rewrite Hw. apply not_elem_of_empty. }
    rewrite Hstale, IH by exact Hw.
    destruct w as [t c i n l]. cbn. f_equal. lia.
Qed.

(** What [pause()] does to a running engine that holds its one interval. *)
Lemma pause_running (w : World) :
  host_consistent w →
  status (state (self w)) = running →
  let wp := exec pause w in
  status (state (self wp)) = paused
  ∧ remainingTime (state (self wp)) = remainingTime (state (self w))
  ∧ pausedRemainingTime (self wp) = remainingTime (state (self w))
  ∧ intervalId (self wp) = None
  ∧ intervals wp = ∅
  ∧ clock wp = clock w
  ∧ nextHandle wp = nextHandle w.
Proof.
  intros (Hi & _ & Hs) Hrun wp. subst wp.
  destruct (proj2 Hs Hrun) as [h Hh].
  rewrite Hh in Hi. clear Hs.
  destruct_world w. unfold_methods. subst.
  case_methods; repeat split; auto; solve_intervals.
Qed.

(** What [start()] does to a paused engine with no interval scheduled. *)
Lemma start_paused (w : World) :
  status (state (self w)) = paused →
  intervals w = ∅ →
  let wr := exec start w in
  status (state (self wr)) = running
  ∧ remainingTime (state (self wr)) = remainingTime (state (self w))
  ∧ clock wr = clock w
  ∧ endTime (self wr) = clock w + pausedRemainingTime (self w)
  ∧ intervalId (self wr) = Some (nextHandle w)
  ∧ intervals wr = {[nextHandle w]}
  ∧ nextHandle wr = S (nextHandle w).
Proof.
  intros Hp Hi wr. subst wr.
  destruct_world w. unfold_methods. subst.
  case_methods; repeat split; auto; solve_intervals.
Qed.

(** C3. Pausing a running engine whose remaining time is [T] clears its
    interval at the host, so that no poll reaches the engine while it is
    paused: whatever the host fires meanwhile ([ps]) only lets the clock
    advance, by [away] in all. Pausing keeps [T] as the resume baseline.
    Resuming with [start()] schedules one new interval and sets the end
    of the countdown to the time of resumption plus [T]. From then on the
    poll of that interval, [t] later, finds [T - t] left while [t < T] and
    runs the session-end transition as soon as [T <= t], which clears the
    interval: the countdown takes [T] more wall-clock time and the time
    spent paused does not count. *)
Theorem pause_resume_exact (p : PartialSettings) (cb : TimerCallbacks)
    (now : Z) (h0 : nat) (acts : list Action) (ps : list (Z * nat)) (t : Z) :
  let w := run acts (boot p cb now h0) in
  status (state (self w)) = running →
  let T := remainingTime (state (self w)) in
  let away := total_delay ps in
  let wp := exec pause w in
  let wa := run (stray_polls ps) wp in
  let wr := exec start wa in
  let h := nextHandle w in
  let polled := exec (fire h) (exec (elapse t) wr) in
  (status (state (self wp)) = paused
   ∧ remainingTime (state (self wp)) = T
   ∧ pausedRemainingTime (self wp) = T
   ∧ intervalId (self wp) = None
   ∧ intervals wp = ∅)
  ∧ wa = exec (elapse away) wp
  ∧ (status (state (self wr)) = running
     ∧ remainingTime (state (self wr)) = T
     ∧ clock wr = clock w + away
     ∧ endTime (self wr) = clock wr + T
     ∧ intervalId (self wr) = Some h
     ∧ intervals wr = {[h]})
  ∧ (t < T →
     state (self polled) = with_remainingTime (T - t) (state (self wr))
     ∧ intervalId (self polled) = Some h
     ∧ intervals polled = {[h]})
  ∧ (T ≤ t →
     state (self polled) = after_end (self wr)
     ∧ log polled = log wr ++ end_calls (self wr)
     ∧ h ∉ intervals polled).
Proof.
  intros w Hrun T away wp wa wr h polled.
  assert (Hc : host_consistent w)
    by apply run_consistent, boot_consistent.
  clearbody w.
  destruct (pause_running w Hc Hrun)
    as (Hp1 & Hp2 & Hp3 & Hp4 & Hp5 & Hp6 & Hp7).
  fold wp in Hp1, Hp2, Hp3, Hp4, Hp5, Hp6, Hp7. fold T in Hp2, Hp3.
  assert (Hwa : wa = exec (elapse away) wp)
    by (subst wa away; apply stray_polls_idle, Hp5).
  assert (Ha : status (state (self wa)) = paused
               ∧ intervals wa = ∅
               ∧ remainingTime (state (self wa)) = T
               ∧ pausedRemainingTime (self wa) = T
               ∧ clock wa = clock w + away
               ∧ nextHandle wa = h).
  { rewrite Hwa. cbn. rewrite Hp6. repeat split; assumption. }
  destruct Ha as (Ha1 & Ha2 & Ha3 & Ha4 & Ha5 & Ha6).
  destruct (start_paused wa Ha1 Ha2)
    as (Hr1 & Hr2 & Hr3 & Hr4 & Hr5 & Hr6 & Hr7).
  fold wr in Hr1, Hr2, Hr3, Hr4, Hr5, Hr6, Hr7.
  rewrite Ha3 in Hr2. rewrite Ha4 in Hr4. rewrite <- Hr3 in Hr4.
  rewrite Ha5 in Hr3. rewrite Ha6 in Hr5, Hr6, Hr7.
  clearbody wa wr wp.
  assert (Hfire : fire h (exec (elapse t) wr) = tick (exec (elapse t) wr)).
  { apply fire_active. cbn. rewrite Hr6. apply elem_of_singleton_2.
    reflexivity. }
  apply (f_equal snd) in Hfire.
  change (exec (fire h) (exec (elapse t) wr) = exec tick (exec (elapse t) wr))
    in Hfire.
  subst polled. rewrite Hfire.
  split; [repeat split; assumption |].
  split; [assumption |].
  split; [repeat split; assumption |].
  split.
  - intros Ht. rewrite tick_counting by (cbn; lia).
    cbn. repeat split; auto. f_equal. lia.
  - intros Ht.
    assert (Hend : exec tick (exec (elapse t) wr)
                   = exec handleSessionEnd (exec (elapse t) wr)).
    { unfold exec at 1 3. rewrite tick_expired by (cbn; lia).
      rewrite handleSessionEnd_ignores_remaining. reflexivity. }
    rewrite Hend, handleSessionEnd_state, handleSessionEnd_log.
    split; [reflexivity |]. split; [reflexivity |].
    pose proof (handleSessionEnd_countdown (exec (elapse t) wr)) as Hcd.
    cbv zeta in Hcd. destruct Hcd as [Hcd _].
    change (intervalId (self (exec (elapse t) wr)))
      with (intervalId (self wr)) in Hcd.
    change (intervals (exec (elapse t) wr)) with (intervals wr) in Hcd.
    change (nextHandle (exec (elapse t) wr)) with (nextHandle wr) in Hcd.
    rewrite Hr5, Hr6, Hr7, difference_diag_L in Hcd.
    destruct (getNextSession (self (exec (elapse t) wr))).
    + destruct Hcd as (_ & -> & _). rewrite union_empty_r_L.
      intros Hin. apply elem_of_singleton_1 in Hin. lia.
    + destruct Hcd as (_ & -> & _). apply not_elem_of_empty.
Qed.

Lemma pause_resume_exact_witness :
  let w := run [Start; Elapse 1000; Fire 1]
             (boot no_settings all_hooks 0 1) in
  let wr := exec start (run (stray_polls [(86400000, 1%nat)]) (exec pause w)) in
  status (state (self w)) = running
  ∧ endTime (self wr) = clock wr + 1499000
  ∧ intervals wr = {[nextHandle w]}.
Proof.
  intros w wr. split; [reflexivity |].
  destruct (pause_resume_exact no_settings all_hooks 0 1
              [Start; Elapse 1000; Fire 1] [(86400000, 1%nat)] 0 eq_refl)
    as (_ & _ & (_ & _ & _ & H1 & _ & H2) & _).
  split; [exact H1 | exact H2].
Defined.

(** ** Runs and invariants *)

Section Invariants.

Variable ok : World → Action → Prop.
Variable Inv : World → Prop.
Hypothesis step : ∀ w a, Inv w → ok w a → Inv (exec (perform a) w).

Lemma run_invariant (acts : list Action) (w : World) :
  Inv w → admissible ok acts w → Inv (run acts w).
Proof.
  revert w. induction acts as [| a acts IH]; intros w Hw Hacts; cbn.
  - exact Hw.
  - destruct Hacts as [Ha Hrest].
    apply IH; [apply step; assumption | exact Hrest].
Qed.

End Invariants.

Lemma admissible_cons ok (a : Action) (rest : list Action) (w : World) :
  admissible ok (a :: rest) w
  = (ok w a ∧ admissible ok rest (exec (perform a) w)).
Proof. reflexivity. Qed.

(** The three ways a poll can go. *)
Lemma fire_cases (h : nat) (w : World) :
  exec (fire h) w = w
  ∨ (h ∈ intervals w ∧ clock w < endTime (self w)
     ∧ exec (fire h) w =
         mkWorld
           (with_state
              (with_remainingTime (endTime (self w) - clock w) (state (self w)))
              (self w))
           (clock w) (intervals w) (nextHandle w)
           (log w ++ if onTick (callbacks (self w))
                     then [OnTick (with_remainingTime
                                     (endTime (self w) - clock w)
                                     (state (self w)))]
                     else []))
  ∨ (h ∈ intervals w ∧ endTime (self w) ≤ clock w
     ∧ exec (fire h) w =
         exec handleSessionEnd (exec (update_state (with_remainingTime 0)) w)).
Proof.
  destruct (decide (h ∈ intervals w)) as [Hin | Hout].
  - assert (E : exec (fire h) w = exec tick w)
      by (unfold exec; rewrite fire_active by exact Hin; reflexivity).
    rewrite E. right.
    destruct (Z.lt_ge_cases (clock w) (endTime (self w))) as [Hlt | Hge].
    + left. repeat split; auto. apply tick_counting. exact Hlt.
    + right. repeat split; auto.
      unfold exec at 1. rewrite tick_expired by exact Hge. reflexivity.
  - left. unfold exec. rewrite fire_stale by exact Hout. reflexivity.
Qed.

(** The two ways a skip can go. *)
Lemma skip_cases (w : World) :
  (exec skip w = w
   ∧ (status (state (self w)) = idle ∨ status (state (self w)) = completed))
  ∨ (exec skip w = exec handleSessionEnd w
     ∧ (status (state (self w)) = running ∨ status (state (self w)) = paused)).
Proof.
  unfold exec, skip. cbv beta iota zeta delta [mbind M_bind this].
  destruct (status (state (self w))); cbn; auto.
Qed.

(** ** The set counter stays in range *)

Lemma handleSessionEnd_in_range (w : World) :
  set_in_range w → set_in_range (exec handleSessionEnd w).
Proof.
  unfold set_in_range. cbv zeta.
  rewrite handleSessionEnd_state.
  rewrite (proj1 (handleSessionEnd_settings w)).
  unfold after_end, getNextSession.
  destruct w as [[cfg [st ses n rt td] cb iid t0 t1 pr] clk ivs nh lg].
  cbn [self state settings currentSession currentSet status].
  intros (Hr & Hb & Hi).
  destruct ses;
    destruct (Z.geb_spec n (totalSets cfg));
    try destruct (strict_eq (js_rem n (longBreakInterval cfg)) 0);
    cbn; repeat split; try lia; try discriminate; try congruence;
    try (intros _; apply Hb; discriminate).
Qed.

Lemma with_remaining_in_range (r : Z) (w : World) :
  set_in_range w → set_in_range (exec (update_state (with_remainingTime r)) w).
Proof. destruct_world w. unfold set_in_range. cbn. tauto. Qed.

Lemma perform_in_range (w : World) (a : Action) :
  set_in_range w → keeps_sets w a → set_in_range (exec (perform a) w).
Proof.
  intros Hw Ha. destruct a; cbn [perform].
  - (* start *)
    revert Hw. unfold set_in_range. destruct_world w.
    case_methods; cbn; intros (? & ? & ?);
      repeat split; try lia; try discriminate; tauto.
  - (* pause *)
    revert Hw. unfold set_in_range. destruct_world w.
    case_methods; cbn; intros (? & ? & ?);
      repeat split; try lia; try discriminate; tauto.
  - (* reset *)
    revert Hw. unfold set_in_range. destruct_world w.
    case_methods; cbn; intros (? & ? & ?);
      repeat split; try lia; try discriminate; tauto.
  - (* skip *)
    destruct (skip_cases w) as [[-> _] | [-> _]];
      [exact Hw | apply handleSessionEnd_in_range, Hw].
  - (* a poll *)
    destruct (fire_cases h w) as [-> | [(_ & _ & ->) | (_ & _ & ->)]].
    + exact Hw.
    + apply (with_remaining_in_range (endTime (self w) - clock w)) in Hw.
      revert Hw. unfold set_in_range. destruct_world w. cbn. tauto.
    + apply handleSessionEnd_in_range, with_remaining_in_range, Hw.
  - (* time passing *)
    revert Hw. unfold set_in_range. destruct_world w. cbn. tauto.
  - (* new settings *)
    revert Hw Ha. unfold set_in_range, keeps_sets. destruct_world w.
    destruct p as [? ? ? pts ? ? ? ?].
    cbn. intros (Hr & Hb & Hi) [-> | [-> Hn]]; cbn; [tauto |].
    destruct (Hi eq_refl) as [-> ->].
    repeat split; auto; try lia. congruence.
  - (* new callbacks *)
    revert Hw. unfold set_in_range. destruct_world w. cbn. tauto.
Qed.

(** C10. With at least one set configured, the set counter of every
    state the engine reaches lies between 1 and the number of sets:
    whatever sequence of start, pause, skip, reset, polls (including the
    ones that end a session), passing time and callback or configuration
    updates leads there. *)
Theorem current_set_in_range
    (p : PartialSettings) (cb : TimerCallbacks) (now : Z) (h0 : nat)
    (acts : list Action) :
  let w0 := boot p cb now h0 in
  1 ≤ totalSets (settings (self w0)) →
  admissible keeps_sets acts w0 →
  let w := run acts w0 in
  1 ≤ currentSet (state (self w)) ≤ totalSets (settings (self w)).
Proof.
  intros w0 Hn Hacts w.
  assert (H0 : set_in_range w0).
  { unfold set_in_range. revert Hn. cbn. intros Hn.
    repeat split; try lia. congruence. }
  destruct (run_invariant keeps_sets set_in_range perform_in_range acts w0
              H0 Hacts) as [H _].
  exact H.
Qed.

Lemma current_set_in_range_witness :
  let acts := [Start; Skip; Skip; Pause; Skip; Skip; Skip; Skip; Skip; Start] in
  let w := run acts (boot no_settings all_hooks 0 1) in
  1 ≤ currentSet (state (self w)) ≤ totalSets (settings (self w)).
Proof.
  intros acts.
  apply (current_set_in_range no_settings all_hooks 0 1 acts).
  - vm_compute. discriminate.
  - repeat split.
Defined.

(** ** Callback counts over a full run *)

Lemma handleSessionEnd_tally (N : Z) (w : World) :
  status (state (self w)) ≠ completed →
  tally N w → tally N (exec handleSessionEnd w).
Proof.
  unfold tally. cbv zeta.
  rewrite handleSessionEnd_state, handleSessionEnd_log.
  destruct (handleSessionEnd_settings w) as (-> & -> & _).
  rewrite count_sessionEnd_app, count_complete_app.
  rewrite end_calls_sessionEnd, end_calls_complete.
  unfold after_end, getNextSession.
  destruct w as [[cfg [st ses n rt td] cb iid t0 t1 pr] clk ivs nh lg].
  cbn [self state settings callbacks currentSession currentSet status log].
  intros Hst (HN & -> & -> & Hr & Hb & Hc).
  assert (Hc' : Z.of_nat (count_sessionEnd lg)
                = 2 * (n - 1) + (if session_eqb ses work then 0 else 1)
                ∧ count_complete lg = 0%nat)
    by (destruct st; auto; congruence).
  clear Hc. destruct Hc' as [Hc1 Hc2].
  destruct ses;
    destruct (Z.geb_spec n (totalSets cfg));
    try destruct (strict_eq (js_rem n (longBreakInterval cfg)) 0);
    cbn in *; repeat split; try lia; try discriminate; try congruence;
    try (exfalso; assert (n < N) by (apply Hb; discriminate); lia).
Qed.

Lemma with_remaining_tally (N r : Z) (w : World) :
  tally N w → tally N (exec (update_state (with_remainingTime r)) w).
Proof. destruct_world w. unfold tally. cbn. tauto. Qed.

Lemma with_remaining_status (r : Z) (w : World) :
  status (state (self (exec (update_state (with_remainingTime r)) w)))
  = status (state (self w)).
Proof. destruct_world w. reflexivity. Qed.

Lemma perform_tally (N : Z) (w : World) (a : Action) :
  tally N w → within_run w a → tally N (exec (perform a) w).
Proof.
  intros Hw [Hst Ha]. destruct a; cbn [perform]; try contradiction.
  - (* start *)
    revert Hw Hst. unfold tally. destruct_world w.
    case_methods; cbn; intros (? & ? & ? & ? & ? & ? & ?) ?;
      rewrite ?count_sessionEnd_app, ?count_complete_app; cbn;
      repeat split; try lia; try discriminate; try tauto; try congruence.
  - (* pause *)
    revert Hw Hst. unfold tally. destruct_world w.
    case_methods; cbn; intros (? & ? & ? & ? & ? & ? & ?) ?;
      rewrite ?count_sessionEnd_app, ?count_complete_app; cbn;
      repeat split; try lia; try discriminate; try tauto; try congruence.
  - (* skip *)
    destruct (skip_cases w) as [[-> _] | [-> _]];
      [exact Hw | apply handleSessionEnd_tally; assumption].
  - (* a poll *)
    destruct (fire_cases h w) as [-> | [(_ & _ & ->) | (_ & _ & ->)]].
    + exact Hw.
    + revert Hw Hst. unfold tally. destruct_world w. cbn.
      rewrite count_sessionEnd_app, count_complete_app.
      destruct onTick0; cbn; rewrite !Nat.add_0_r; tauto.
    + apply handleSessionEnd_tally.
      * rewrite with_remaining_status. exact Hst.
      * apply with_remaining_tally, Hw.
  - (* time passing *)
    revert Hw. unfold tally. destruct_world w. cbn. tauto.
  - (* new settings *)
    revert Hw Ha. unfold tally. destruct_world w.
    destruct p as [? ? ? pts ? ? ? ?]. cbn. intros Hw ->. cbn. exact Hw.
  - (* new callbacks *)
    revert Hw. unfold tally. destruct_world w. destruct c. cbn.
    intros (? & -> & -> & ?). cbn. tauto.
Qed.

Lemma skip_state (w : World) :
  status (state (self w)) = running →
  state (self (exec skip w)) = after_end (self w)
  ∧ settings (self (exec skip w)) = settings (self w).
Proof.
  intros Hrun. unfold exec. rewrite skip_running by (left; exact Hrun).
  split; [apply handleSessionEnd_state | apply handleSessionEnd_settings].
Qed.

Lemma skip_last (N : Z) (w : World) :
  at_work N N w → status (state (self (exec skip w))) = completed.
Proof.
  intros (Hrun & Hses & Hset & HN).
  rewrite (proj1 (skip_state w Hrun)).
  unfold after_end, getNextSession. rewrite Hses, Hset, HN.
  destruct (Z.geb_spec N N); [reflexivity | lia].
Qed.

Lemma skip_pair (N k : Z) (w : World) :
  at_work N k w → k < N →
  status (state (self (exec skip w))) = running
  ∧ at_work N (k + 1) (exec skip (exec skip w)).
Proof.
  intros (Hrun & Hses & Hset & HN) Hlt.
  destruct (skip_state w Hrun) as [E1 S1].
  assert (H1 : status (state (self (exec skip w))) = running
               ∧ currentSession (state (self (exec skip w))) ≠ work
               ∧ currentSet (state (self (exec skip w))) = k).
  { rewrite E1. unfold after_end, getNextSession. rewrite Hses, Hset, HN.
    destruct (Z.geb_spec k N); [lia |].
    destruct (strict_eq (js_rem k (longBreakInterval (settings (self w)))) 0);
      cbn; repeat split; auto; discriminate. }
  destruct H1 as (Hrun1 & Hses1 & Hset1).
  split; [exact Hrun1 |].
  destruct (skip_state (exec skip w) Hrun1) as [E2 S2].
  unfold at_work. rewrite E2, S2, S1, HN.
  unfold after_end, getNextSession. rewrite Hset1, S1, HN.
  destruct (currentSession (state (self (exec skip w)))); [congruence | |];
    (destruct (Z.geb_spec k N); [lia |]); cbn; auto.
Qed.

Lemma skips_complete (N : Z) (m : nat) (w : World) :
  at_work N (N - Z.of_nat m) w →
  admissible within_run (repeat Skip (2 * m + 1)) w
  ∧ status (state (self (run (repeat Skip (2 * m + 1)) w))) = completed.
Proof.
  revert w. induction m as [| m IH]; intros w Hw.
  - replace (N - Z.of_nat 0) with N in Hw by lia.
    cbn [Nat.mul Nat.add repeat admissible run perform].
    split; [| apply (skip_last N), Hw].
    split; [| exact I]. split; [| exact I].
    destruct Hw as (-> & _). discriminate.
  - replace (2 * S m + 1)%nat with (S (S (2 * m + 1))) by lia.
    cbn [repeat admissible run perform].
    destruct (skip_pair N (N - Z.of_nat (S m)) w Hw ltac:(lia)) as [Hrun1 Hw2].
    replace (N - Z.of_nat (S m) + 1) with (N - Z.of_nat m) in Hw2 by lia.
    destruct (IH _ Hw2) as [Hadm Hdone].
    split; [| exact Hdone].
    split; [split; [| exact I] |].
    + destruct Hw as (-> & _). discriminate.
    + split; [split; [| exact I] | exact Hadm].
      rewrite Hrun1. discriminate.
Qed.

Lemma boot_start_at_work
    (p : PartialSettings) (cb : TimerCallbacks) (now : Z) (h0 : nat) :
  at_work (totalSets (settings (self (boot p cb now h0)))) 1
    (exec start (boot p cb now h0)).
Proof.
  unfold at_work, boot, construct. destruct cb as [? ? ? changes].
  unfold_methods. destruct changes; repeat split.
Qed.

Lemma boot_tally
    (p : PartialSettings) (cb : TimerCallbacks) (now : Z) (h0 : nat) :
  1 ≤ totalSets (settings (self (boot p cb now h0))) →
  onSessionEnd cb = true → onComplete cb = true →
  tally (totalSets (settings (self (boot p cb now h0)))) (boot p cb now h0).
Proof.
  unfold tally, boot, construct. cbv zeta.
  cbn [self settings state callbacks currentSet currentSession status log
       createInitialState count_sessionEnd count_complete session_eqb].
  intros Hpos -> ->. repeat split; try lia. congruence.
Qed.

(** C4. Take an engine configured for [N >= 1] sets, with any long-break
    interval, whose [onSessionEnd] and [onComplete] slots are filled.
    A run from the initial state can reach the completed status, and in
    every run that does (by polls, skips, pauses and resumes, in any
    order, up to the first completion) [onSessionEnd] has been invoked
    exactly [2N - 1] times and [onComplete] exactly once. *)
Theorem callback_cardinality
    (p : PartialSettings) (cb : TimerCallbacks) (now : Z) (h0 : nat) (N : Z) :
  let w0 := boot p cb now h0 in
  totalSets (settings (self w0)) = N → 1 ≤ N →
  onSessionEnd cb = true → onComplete cb = true →
  (∃ acts, admissible within_run acts w0
           ∧ status (state (self (run acts w0))) = completed)
  ∧ (∀ acts, admissible within_run acts w0 →
             status (state (self (run acts w0))) = completed →
             Z.of_nat (count_sessionEnd (log (run acts w0))) = 2 * N - 1
             ∧ count_complete (log (run acts w0)) = 1%nat).
Proof.
  intros w0 HN Hpos Hse Hco. split.
  - set (m := Z.to_nat (N - 1)).
    exists (Start :: repeat Skip (2 * m + 1)).
    pose proof (boot_start_at_work p cb now h0) as Hw.
    fold w0 in Hw. rewrite HN in Hw.
    replace 1 with (N - Z.of_nat m) in Hw by lia.
    destruct (skips_complete N m _ Hw) as [Hadm Hdone].
    assert (Hidle : status (state (self w0)) ≠ completed) by discriminate.
    clearbody w0.
    rewrite run_cons, admissible_cons.
    split; [| exact Hdone].
    split; [| exact Hadm]. split; [exact Hidle | exact I].
  - intros acts Hadm Hdone.
    pose proof (boot_tally p cb now h0) as H0.
    fold w0 in H0. rewrite HN in H0.
    specialize (H0 Hpos Hse Hco). clearbody w0.
    pose proof (run_invariant within_run (tally N) (perform_tally N)
                  acts w0 H0 Hadm) as (_ & _ & _ & _ & _ & Hc).
    rewrite Hdone in Hc. exact Hc.
Qed.

Lemma callback_cardinality_witness :
  let w0 := boot no_settings all_hooks 0 1 in
  let acts := [Start; Elapse 1500000; Fire 1; Skip; Pause; Start; Skip; Skip;
               Skip; Skip; Skip] in
  Z.of_nat (count_sessionEnd (log (run acts w0))) = 2 * 4 - 1
  ∧ count_complete (log (run acts w0)) = 1%nat.
Proof.
  intros w0 acts.
  destruct (callback_cardinality no_settings all_hooks 0 1 4
              eq_refl ltac:(lia) eq_refl eq_refl) as [_ H].
  apply (H acts).
  - vm_compute. repeat split; discriminate.
  - vm_compute. reflexivity.
Defined.

(** ** Progress *)

Lemma handleSessionEnd_time_in_range (w : World) :
  time_in_range w → time_in_range (exec handleSessionEnd w).
Proof.
  unfold time_in_range, durations_ok. cbv zeta.
  rewrite handleSessionEnd_state.
  destruct (handleSessionEnd_settings w) as (-> & _ & ->).
  pose proof (handleSessionEnd_countdown w) as Hcd. cbv zeta in Hcd.
  unfold after_end.
  destruct (getNextSession (self w)) as [next |];
    [destruct Hcd as ((_ & _ & _ & ->) & ->)
    | destruct Hcd as ((_ & _ & _ & ->) & ->)];
    intros ((? & ? & ?) & ? & ? & ?); cbn.
  - assert (0 ≤ getSessionDuration (self w) next)
      by (destruct next; unfold getSessionDuration; lia).
    repeat split; intros; try lia; discriminate.
  - repeat split; intros; try lia; discriminate.
Qed.

Lemma with_remaining_time_in_range (w : World) :
  time_in_range w → 0 ≤ totalDuration (state (self w)) ∧
  (status (state (self w)) ≠ paused →
   time_in_range (exec (update_state (with_remainingTime 0)) w)).
Proof.
  unfold time_in_range, durations_ok; destruct_world w; cbn.
  intros ((? & ? & ?) & ? & ? & ?).
  repeat split; intros; try lia; try discriminate; try congruence; try tauto.
Qed.

Lemma active_running (h : nat) (w : World) :
  host_consistent w → h ∈ intervals w → status (state (self w)) = running.
Proof.
  intros (Hi & _ & Hs) Hin. apply Hs.
  destruct (intervalId (self w)); [eauto |].
  rewrite Hi in Hin. apply not_elem_of_empty in Hin. contradiction.
Qed.

Lemma perform_time_in_range (w : World) (a : Action) :
  host_consistent w → time_in_range w → clock_forward w a →
  time_in_range (exec (perform a) w).
Proof.
  intros Hc Hw Ha. destruct a; cbn [perform].
  - revert Hw. time_cases w.
  - revert Hw. time_cases w.
  - revert Hw. time_cases w.
  - destruct (skip_cases w) as [[-> _] | [-> _]];
      [exact Hw | apply handleSessionEnd_time_in_range, Hw].
  - destruct (fire_cases h w) as [-> | [(Hin & Hlt & ->) | (Hin & _ & ->)]].
    + exact Hw.
    + pose proof (active_running h w Hc Hin) as Hrun.
      revert Hw Hrun Hlt. unfold time_in_range, durations_ok.
      destruct_world w. cbn. intros ((? & ? & ?) & ? & Hr & ?) -> ?.
      specialize (Hr eq_refl).
      repeat split; intros; try lia; try discriminate.
    + pose proof (active_running h w Hc Hin) as Hrun.
      apply handleSessionEnd_time_in_range, with_remaining_time_in_range;
        [exact Hw | congruence].
  - revert Hw Ha. unfold time_in_range, durations_ok, clock_forward.
    destruct_world w. cbn. intros ((? & ? & ?) & ? & ? & ?) ?.
    repeat split; intros; try lia; try discriminate; try tauto.
    assert (endTime0 - clock0 ≤ totalDuration0) by tauto. lia.
  - revert Hw Ha. unfold time_in_range, clock_forward.
    destruct_world w. cbn. tauto.
  - revert Hw. unfold time_in_range. destruct_world w. cbn. tauto.
Qed.

Lemma getProgress_finite (t : PomodoroTimer) :
  ∃ q, getProgress t = Finite q.
Proof.
  unfold getProgress, js_div.
  destruct (totalDuration (state t) =? 0); cbn; eauto.
Qed.

Lemma getProgress_value (t : PomodoroTimer) :
  let td := totalDuration (state t) in
  let rt := remainingTime (state t) in
  0 ≤ rt ≤ td →
  ∃ q, getProgress t = Finite q
       ∧ (0 <= q)%Q ∧ (q <= 100)%Q
       ∧ (td = 0 → q = 0%Q)
       ∧ (td ≠ 0 → q = (inject_Z (td - rt) / inject_Z td * inject_Z 100)%Q).
Proof.
  cbv zeta. unfold getProgress, js_div.
  destruct (Z.eqb_spec (totalDuration (state t)) 0) as [E | E]; intros H.
  - exists 0%Q. repeat split; try (intros; congruence); discriminate.
  - cbn [js_mul]. eexists. split; [reflexivity |].
    split; [| split; [| split; [intros; congruence | reflexivity]]].
    + destruct (totalDuration (state t)) as [| td | td]; try lia.
      unfold Qle, Qmult, Qdiv, Qinv, inject_Z. cbn. nia.
    + destruct (totalDuration (state t)) as [| td | td]; try lia.
      unfold Qle, Qmult, Qdiv, Qinv, inject_Z. cbn. nia.
Qed.

(** X18. In every state the engine reaches with durations that are not
    negative and a clock that does not run backwards, the remaining time
    lies between 0 and [totalDuration], and [getProgress()] returns a
    number between 0 and 100, which is [0] when [totalDuration] is [0].
    On any engine at all the result is a number: the division is not
    reached with a zero divisor. *)
Theorem progress_in_range
    (p : PartialSettings) (cb : TimerCallbacks) (now : Z) (h0 : nat)
    (acts : list Action) :
  let w0 := boot p cb now h0 in
  durations_ok (settings (self w0)) →
  admissible clock_forward acts w0 →
  let t := self (run acts w0) in
  let td := totalDuration (state t) in
  let rt := remainingTime (state t) in
  (∀ t' : PomodoroTimer, ∃ q, getProgress t' = Finite q)
  ∧ 0 ≤ rt ≤ td
  ∧ ∃ q, getProgress t = Finite q
         ∧ (0 <= q)%Q ∧ (q <= 100)%Q
         ∧ (td = 0 → q = 0%Q).
Proof.
  intros w0 Hd Hacts t td rt.
  split; [exact getProgress_finite |].
  assert (H0 : host_consistent w0 ∧ time_in_range w0).
  { split; [apply boot_consistent |].
    unfold time_in_range. split; [exact Hd |].
    destruct Hd as (Hwork & _). revert Hwork. subst w0. cbn. intros Hwork.
    repeat split; try lia; discriminate. }
  clearbody w0.
  assert (Hstep : ∀ w a, host_consistent w ∧ time_in_range w →
                         clock_forward w a →
                         host_consistent (exec (perform a) w)
                         ∧ time_in_range (exec (perform a) w)).
  { intros w a [Hc Ht] Ha. split.
    - apply perform_consistent, Hc.
    - apply perform_time_in_range; assumption. }
  destruct (run_invariant clock_forward _ Hstep acts w0 H0 Hacts)
    as (_ & _ & Hrange & _).
  split; [exact Hrange |].
  destruct (getProgress_value t Hrange) as (q & Hq & Hlo & Hhi & Hzero & _).
  exists q. repeat split; assumption.
Qed.

Lemma progress_in_range_witness :
  let acts := [Start; Elapse 600000; Fire 1; Pause; Elapse 5000; Start;
               Elapse 300000; Fire 2] in
  let t := self (run acts (boot no_settings all_hooks 0 1)) in
  0 ≤ remainingTime (state t) ≤ totalDuration (state t).
Proof.
  intros acts.
  apply (progress_in_range no_settings all_hooks 0 1 acts).
  - vm_compute. repeat split; discriminate.
  - vm_compute. repeat split; discriminate.
Defined.

(** C9. [getProgress()] does not stay between 0 and 100 in every state
    the engine reaches. [tick] stores [max 0 (endTime - now)] as the
    remaining time: bounded from below only. When the wall clock is set
    back during a session the poll finds more time left than the session
    lasts, and the progress is negative. Here a default engine is started
    and the clock is set back by one minute before the interval fires:
    the session of 1500000 ms has 1560000 ms left, the engine is still
    running and [getProgress()] returns -4. *)
Theorem progress_negative_after_clock_set_back :
  let w := run [Start; Elapse (-60000); Fire 1]
             (boot no_settings all_hooks 1700000000000 1) in
  status (state (self w)) = running
  ∧ clock w = 1699999940000
  ∧ endTime (self w) = 1700001500000
  ∧ totalDuration (state (self w)) = 1500000
  ∧ remainingTime (state (self w)) = 1560000
  ∧ log w = [OnStateChange (mkState running work 1 1500000 1500000);
              OnTick (mkState running work 1 1560000 1500000)]
  ∧ ∃ q, getProgress (self w) = Finite q ∧ (q == -4)%Q ∧ ¬ (0 <= q)%Q.
Proof.
  intros w. vm_compute.
  repeat (split; [reflexivity |]).
  eexists. split; [reflexivity |]. split; [reflexivity |].
  intros H. apply H. reflexivity.
Qed.

(** ** Formatting *)

Local Open Scope string_scope.

Lemma js_ceil_div_spec (ms : Z) :
  1000 * (js_ceil_div ms 1000 - 1) < ms ≤ 1000 * js_ceil_div ms 1000.
Proof.
  unfold js_ceil_div.
  pose proof (Z.div_mod (- ms) 1000 ltac:(lia)) as Hdm.
  pose proof (Z.mod_pos_bound (- ms) 1000 ltac:(lia)) as Hb.
  lia.
Qed.

Lemma toString_value (n : Z) : 0 ≤ n → decimal_value (toString n) = Some n.
Proof.
  intros Hn. unfold decimal_value, toString.
  destruct n as [| p | p]; [reflexivity | | lia].
  cbn [Z.to_int NilEmpty.string_of_int]. rewrite NilEmpty.usu.
  cbn [option_map]. unfold Z.of_uint.
  rewrite DecimalPos.Unsigned.of_to. reflexivity.
Qed.

Lemma decimal_value_zero (s : string) :
  decimal_value (String "0" s) = decimal_value s.
Proof.
  unfold decimal_value. cbn [NilEmpty.uint_of_string].
  destruct (NilEmpty.uint_of_string s); reflexivity.
Qed.

Lemma padStart_length (s : string) :
  String.length (padStart 2 "0" s) = Nat.max 2 (String.length s).
Proof.
  destruct s as [| a [| b s]];
    cbv [padStart String.length Nat.leb Nat.sub fill_cycle String.append
         Nat.max]; reflexivity.
Qed.

Lemma padStart_value (s : string) :
  decimal_value (padStart 2 "0" s) = decimal_value s.
Proof.
  destruct s as [| a [| b s]];
    cbv [padStart String.length Nat.leb Nat.sub fill_cycle String.append];
    rewrite ?decimal_value_zero; reflexivity.
Qed.

Lemma toString_short (k : nat) :
  (k < 100)%nat → (String.length (toString (Z.of_nat k)) <= 2)%nat.
Proof.
  intros Hk.
  do 100 (destruct k as [| k]; [vm_compute; lia |]). lia.
Qed.

(** C7. [formatTime] depends on its argument alone. For a duration of
    [ms >= 0] milliseconds it rounds up to whole seconds [secs] (the
    least whole number of seconds not below [ms]) and renders
    [MM:SS]: [SS] is [secs mod 60] on exactly two digits, [MM] is
    [secs / 60], with no rollover into hours, on two digits and more
    only when the minutes need them. In particular 0 gives "00:00",
    1 gives "00:01", 60000 gives "01:00" and 3600000 gives "60:00". *)
Theorem formatTime_rounds_up_and_pads (ms : Z) :
  (formatTime 0 = "00:00" ∧ formatTime 1 = "00:01"
   ∧ formatTime 60000 = "01:00" ∧ formatTime 3600000 = "60:00")
  ∧ (0 ≤ ms →
     ∃ (secs : Z) (mm ss : string),
       1000 * (secs - 1) < ms ≤ 1000 * secs
       ∧ formatTime ms = mm ++ ":" ++ ss
       ∧ decimal_value mm = Some (secs / 60)
       ∧ decimal_value ss = Some (secs mod 60)
       ∧ String.length ss = 2%nat
       ∧ (2 <= String.length mm)%nat
       ∧ (secs < 6000 → String.length mm = 2%nat)).
Proof.
  split; [repeat split; reflexivity |].
  intros Hms.
  pose proof (js_ceil_div_spec ms) as Hceil.
  set (secs := js_ceil_div ms 1000) in *.
  assert (Hsecs : 0 ≤ secs) by lia.
  assert (Hmin : 0 ≤ secs / 60) by (apply Z.div_pos; lia).
  assert (Hsec : 0 ≤ secs mod 60 < 60) by (apply Z.mod_pos_bound; lia).
  exists secs, (padStart 2 "0" (toString (secs / 60))),
    (padStart 2 "0" (toString (secs mod 60))).
  split; [exact Hceil |].
  split.
  { unfold formatTime. fold secs. cbv zeta.
    rewrite Z.rem_mod_nonneg by lia. reflexivity. }
  rewrite !padStart_value, !padStart_length.
  rewrite !toString_value by lia.
  split; [reflexivity |]. split; [reflexivity |].
  split; [| split; [lia |]].
  - pose proof (toString_short (Z.to_nat (secs mod 60)) ltac:(lia)) as Hlen.
    rewrite Z2Nat.id in Hlen by lia. lia.
  - intros Hsmall.
    assert (secs / 60 < 100) by (apply Z.div_lt_upper_bound; lia).
    pose proof (toString_short (Z.to_nat (secs / 60)) ltac:(lia)) as Hlen.
    rewrite Z2Nat.id in Hlen by lia. lia.
Qed.

Lemma formatTime_rounds_up_and_pads_witness :
  ∃ (secs : Z) (mm ss : string),
    1000 * (secs - 1) < 7499001 ≤ 1000 * secs
    ∧ formatTime 7499001 = mm ++ ":" ++ ss
    ∧ decimal_value mm = Some (secs / 60)
    ∧ decimal_value ss = Some (secs mod 60)
    ∧ String.length ss = 2%nat
    ∧ (2 <= String.length mm)%nat
    ∧ (secs < 6000 → String.length mm = 2%nat).
Proof.
  apply (formatTime_rounds_up_and_pads 7499001). lia.
Defined.

(** Outside the durations the engine produces: a negative argument is
    rendered with its sign in both fields. *)
Example formatTime_negative : formatTime (-1000) = "-1:-1".
Proof. reflexivity. Qed.

Example formatTime_minutes_beyond_an_hour : formatTime 7500000 = "125:00".
Proof. reflexivity. Qed.

Local Close Scope string_scope.

(** * Further properties of the engine *)

(** ** The poll loop *)

(** X1. Whatever is done to an engine after its construction, the host
    never holds more than one of its intervals: the scheduled intervals
    are exactly the one handle the engine remembers, and there is one
    exactly while the status is running. No start, resume or transition
    leaves an earlier interval behind. *)
Theorem poll_loop_never_leaks
    (p : PartialSettings) (cb : TimerCallbacks) (now : Z) (h0 : nat)
    (acts : list Action) :
  let w := run acts (boot p cb now h0) in
  (size (intervals w) <= 1)%nat
  ∧ (∀ h, h ∈ intervals w ↔ intervalId (self w) = Some h)
  ∧ (intervals w ≠ ∅ ↔ status (state (self w)) = running).
Proof.
  intros w.
  destruct (run_consistent acts _ (boot_consistent p cb now h0))
    as (Hi & _ & Hs).
  fold w in Hi, Hs. rewrite Hi.
  destruct (intervalId (self w)) as [h' |].
  - split; [rewrite size_singleton; lia |]. split.
    + intros h. rewrite elem_of_singleton. split; congruence.
    + split; [intros _; apply Hs; eauto |].
      intros _ E. assert (Hin : h' ∈ ({[h']} : gset nat))
        by (apply elem_of_singleton; reflexivity).
      rewrite E in Hin. apply not_elem_of_empty in Hin. exact Hin.
  - split; [rewrite size_empty; lia |]. split.
    + intros h. split; [intros Hin | discriminate].
      apply not_elem_of_empty in Hin. contradiction.
    + split; [congruence |].
      intros Hrun. apply Hs in Hrun. destruct Hrun; discriminate.
Qed.

(** X2. An engine that is not running never ticks: after [pause()],
    [reset()] or the completion, and before the first [start()], the
    callback of any interval handle, old or new, finds nothing scheduled
    and changes neither the engine nor the callback log. *)
Theorem stopped_engine_never_ticks
    (p : PartialSettings) (cb : TimerCallbacks) (now : Z) (h0 : nat)
    (acts : list Action) (h : nat) :
  let w := run acts (boot p cb now h0) in
  status (state (self w)) ≠ running → fire h w = (tt, w).
Proof.
  intros w Hst. apply fire_stale. intros Hin. apply Hst.
  apply (active_running h); [| exact Hin].
  apply run_consistent, boot_consistent.
Qed.

Lemma stopped_engine_never_ticks_witness :
  let w := run [Start; Elapse 1000; Fire 1; Pause; Elapse 5000]
             (boot no_settings all_hooks 0 1) in
  fire 1 w = (tt, w).
Proof.
  intros w.
  apply (stopped_engine_never_ticks no_settings all_hooks 0 1
           [Start; Elapse 1000; Fire 1; Pause; Elapse 5000] 1).
  vm_compute. discriminate.
Defined.

(** ** How the operations compose *)

(** X3. [start()] and [pause()] are idempotent on every engine: a second
    call right after the first changes nothing, neither the state, nor
    the countdown, nor the scheduled interval, nor the callback log. *)
Theorem start_pause_idempotent (w : World) :
  exec start (exec start w) = exec start w
  ∧ exec pause (exec pause w) = exec pause w.
Proof.
  destruct_world w. split; case_methods; reflexivity.
Qed.

(** X4. [skip()] on a paused engine does not stay paused: it runs the
    transition, and when there is a next session that session is running
    at once, with its full duration on a new poll loop ending one
    session length from now; the remaining time frozen by the pause is
    dropped. When there is no next session the engine is completed. *)
Theorem skip_while_paused (w : World) :
  status (state (self w)) = paused →
  let w' := exec skip w in
  state (self w') = after_end (self w)
  ∧ status (state (self w')) ≠ paused
  ∧ match getNextSession (self w) with
    | Some next =>
        status (state (self w')) = running
        ∧ remainingTime (state (self w')) = getSessionDuration (self w) next
        ∧ endTime (self w') = clock w + getSessionDuration (self w) next
        ∧ intervalId (self w') = Some (nextHandle w)
        ∧ nextHandle w ∈ intervals w'
    | None =>
        status (state (self w')) = completed ∧ intervalId (self w') = None
    end.
Proof.
  intros Hp w'.
  assert (E : w' = exec handleSessionEnd w).
  { unfold w', exec. rewrite skip_running; [reflexivity | right; exact Hp]. }
  rewrite E, handleSessionEnd_state.
  pose proof (handleSessionEnd_countdown w) as Hcd. cbv zeta in Hcd.
  unfold after_end.
  destruct (getNextSession (self w)) as [next |];
    destruct Hcd as ((Hid & Hiv & _ & Hend) & _); cbn.
  - repeat split; auto; try discriminate.
    rewrite Hiv. apply elem_of_union_l, elem_of_singleton. reflexivity.
  - repeat split; auto; discriminate.
Qed.

Lemma skip_while_paused_witness :
  let w := run [Start; Elapse 1000; Fire 1; Pause]
             (boot no_settings all_hooks 0 1) in
  status (state (self (exec skip w))) ≠ paused.
Proof.
  intros w.
  destruct (skip_while_paused w eq_refl) as (_ & H & _). exact H.
Defined.

(** ** Reconfiguring *)

Lemma default_merge {A : Type} (a : A) (x y : option A) :
  default (default a x) y = default a (from_option Some x y).
Proof. destruct x, y; reflexivity. Qed.

Lemma spread_merge (s : PomodoroSettings) (p q : PartialSettings) :
  spread (spread s p) q = spread s (merge_partial p q).
Proof.
  unfold spread, merge_partial; cbn.
  rewrite !default_merge. reflexivity.
Qed.

(** X5. [updateSettings] replaces the given fields of the configuration
    and nothing else: the session in progress keeps its state, its total
    and remaining time, its deadline and its poll loop, and no callback
    is invoked. Two updates in a row are one update with the merged
    fields. The new durations take effect at the next transition: the
    session that [skip()] (or an expiry) enters then lasts what the new
    configuration says. *)
Theorem updateSettings_takes_effect_at_next_session
    (w : World) (p q : PartialSettings) :
  let w1 := exec (updateSettings p) w in
  (settings (self w1) = spread (settings (self w)) p
   ∧ state (self w1) = state (self w)
   ∧ endTime (self w1) = endTime (self w)
   ∧ intervalId (self w1) = intervalId (self w)
   ∧ intervals w1 = intervals w
   ∧ log w1 = log w)
  ∧ exec (updateSettings q) w1 = exec (updateSettings (merge_partial p q)) w
  ∧ (status (state (self w)) = running ∨ status (state (self w)) = paused →
     ∀ next, getNextSession (self w1) = Some next →
       let s2 := state (self (exec skip w1)) in
       currentSession s2 = next
       ∧ totalDuration s2 = getSessionDuration (self w1) next
       ∧ remainingTime s2 = getSessionDuration (self w1) next).
Proof.
  intros w1. split; [| split].
  - destruct_world w. repeat split.
  - unfold w1, exec, updateSettings, update. cbn.
    rewrite spread_merge. reflexivity.
  - intros Hst next Hnext s2.
    assert (Hst1 : status (state (self w1)) = running
                   ∨ status (state (self w1)) = paused)
      by (destruct_world w; exact Hst).
    assert (E : exec skip w1 = exec handleSessionEnd w1)
      by (unfold exec; rewrite skip_running by exact Hst1; reflexivity).
    subst s2. rewrite E, handleSessionEnd_state.
    unfold after_end. rewrite Hnext.
    cbn [currentSession totalDuration remainingTime]. repeat split.
Qed.

Lemma updateSettings_takes_effect_at_next_session_witness :
  let w := run [Start; Skip] (boot no_settings all_hooks 0 1) in
  let w1 := exec (updateSettings work_fifty) w in
  totalDuration (state (self w1)) = 300000
  ∧ totalDuration (state (self (exec skip w1))) = 3000000.
Proof.
  intros w w1.
  destruct (updateSettings_takes_effect_at_next_session w work_fifty
              no_settings) as ((_ & Hs & _) & _ & H).
  split; [fold w1 in Hs; rewrite Hs; reflexivity |].
  destruct (H ltac:(left; reflexivity) work eq_refl) as (_ & Htd & _).
  exact Htd.
Defined.

(** ** Starting again after the completion *)

Lemma handleSessionEnd_finished (N : Z) (w : World) :
  tally N w → status (state (self w)) ≠ completed →
  finished_at_last N (exec handleSessionEnd w).
Proof.
  unfold tally, finished_at_last. cbv zeta.
  rewrite handleSessionEnd_state. unfold after_end, getNextSession.
  destruct w as [[cfg [st ses n rt td] cb iid t0 t1 pr] clk ivs nh lg].
  cbn [self state settings callbacks currentSession currentSet status log].
  intros (HN & _ & _ & Hr & Hb & _) _.
  destruct ses;
    destruct (Z.geb_spec n (totalSets cfg));
    try destruct (strict_eq (js_rem n (longBreakInterval cfg)) 0);
    cbn; intros Hc; try discriminate Hc;
    first [ split; [reflexivity | lia]
          | exfalso; assert (n < N) by (apply Hb; discriminate); lia ].
Qed.

Lemma perform_finished (N : Z) (w : World) (a : Action) :
  tally N w ∧ finished_at_last N w → within_run w a →
  tally N (exec (perform a) w) ∧ finished_at_last N (exec (perform a) w).
Proof.
  intros [Hw _] Ha. split; [apply perform_tally; assumption |].
  destruct Ha as [Hst Ha]. destruct a; cbn [perform]; try contradiction.
  - revert Hst. unfold finished_at_last. destruct_world w.
    case_methods; cbn; intros; congruence.
  - revert Hst. unfold finished_at_last. destruct_world w.
    case_methods; cbn; intros; congruence.
  - destruct (skip_cases w) as [[-> _] | [-> _]];
      [intros E; contradiction | apply handleSessionEnd_finished; assumption].
  - destruct (fire_cases h w) as [-> | [(_ & _ & ->) | (_ & _ & ->)]].
    + intros E; contradiction.
    + revert Hst. unfold finished_at_last. destruct_world w. cbn.
      intros; congruence.
    + apply handleSessionEnd_finished.
      * apply with_remaining_tally, Hw.
      * rewrite with_remaining_status. exact Hst.
  - revert Hst. unfold finished_at_last. destruct_world w. cbn.
    intros; congruence.
  - revert Hst. unfold finished_at_last. destruct_world w. cbn.
    intros; congruence.
  - revert Hst. unfold finished_at_last. destruct_world w. cbn.
    intros; congruence.
Qed.

Lemma start_from_completed (w : World) :
  status (state (self w)) = completed →
  let w1 := exec start w in
  let d := getSessionDuration (self w) (currentSession (state (self w))) in
  state (self w1)
  = mkState running (currentSession (state (self w)))
      (currentSet (state (self w))) d d
  ∧ settings (self w1) = settings (self w)
  ∧ callbacks (self w1) = callbacks (self w)
  ∧ count_sessionEnd (log w1) = count_sessionEnd (log w)
  ∧ count_complete (log w1) = count_complete (log w).
Proof.
  destruct_world w. cbn [self state status]. intros ->.
  case_methods; rewrite ?count_sessionEnd_app, ?count_complete_app; cbn;
    rewrite ?Nat.add_0_r; repeat split.
Qed.

(** X6. [start()] on a completed engine does not begin a new cycle: it
    runs the work session of the last set once more, with the set
    counter unchanged. When that session ends the engine completes
    again, so that [onSessionEnd] has then been invoked [2N] times and
    [onComplete] twice. Only [reset()] returns to set 1. *)
Theorem restart_after_completion
    (p : PartialSettings) (cb : TimerCallbacks) (now : Z) (h0 : nat) (N : Z)
    (acts : list Action) :
  let w0 := boot p cb now h0 in
  totalSets (settings (self w0)) = N → 1 ≤ N →
  onSessionEnd cb = true → onComplete cb = true →
  admissible within_run acts w0 →
  status (state (self (run acts w0))) = completed →
  let w1 := exec start (run acts w0) in
  let w2 := exec skip w1 in
  (status (state (self w1)) = running
   ∧ currentSession (state (self w1)) = work
   ∧ currentSet (state (self w1)) = N
   ∧ remainingTime (state (self w1))
     = workDuration (settings (self w1)) * 60 * 1000)
  ∧ status (state (self w2)) = completed
  ∧ currentSet (state (self w2)) = N
  ∧ Z.of_nat (count_sessionEnd (log w2)) = 2 * N
  ∧ count_complete (log w2) = 2%nat.
Proof.
  intros w0 HN Hpos Hse Hco Hadm Hdone w1 w2.
  pose proof (boot_tally p cb now h0) as H0.
  fold w0 in H0. rewrite HN in H0. specialize (H0 Hpos Hse Hco).
  assert (Hf0 : finished_at_last N w0) by (intros E; discriminate E).
  clearbody w0.
  destruct (run_invariant within_run _ (perform_finished N) acts w0
              (conj H0 Hf0) Hadm) as [Ht Hf].
  set (w := run acts w0) in *.
  destruct (Hf Hdone) as [Hses Hset].
  destruct Ht as (HNw & Hsew & Hcow & _ & _ & Hc).
  rewrite Hdone in Hc. destruct Hc as [Hc1 Hc2].
  destruct (start_from_completed w Hdone) as (Es & Ecfg & Ecb & El1 & El2).
  fold w1 in Es, Ecfg, Ecb, El1, El2.
  rewrite Hses, Hset in Es.
  assert (Hrun1 : status (state (self w1)) = running)
    by (rewrite Es; reflexivity).
  split.
  { rewrite Es, Ecfg. cbn. repeat split. }
  assert (E2 : w2 = exec handleSessionEnd w1).
  { unfold w2, exec at 1. rewrite skip_running; [reflexivity | left; exact Hrun1]. }
  assert (Hnext : getNextSession (self w1) = None).
  { unfold getNextSession. rewrite Es, Ecfg, HNw. cbn.
    destruct (Z.geb_spec N N); [reflexivity | lia]. }
  rewrite E2, handleSessionEnd_state, handleSessionEnd_log.
  rewrite count_sessionEnd_app, count_complete_app.
  rewrite end_calls_sessionEnd, end_calls_complete.
  unfold after_end. rewrite Hnext, Ecb, Hsew, Hcow, El1, El2, Hc2, Es.
  cbn [status currentSet]. repeat split; lia.
Qed.

Lemma restart_after_completion_witness :
  let w0 := boot no_settings all_hooks 0 1 in
  let acts := [Start; Skip; Skip; Skip; Skip; Skip; Skip; Skip] in
  count_complete (log (exec skip (exec start (run acts w0)))) = 2%nat.
Proof.
  intros w0 acts.
  destruct (restart_after_completion no_settings all_hooks 0 1 4 acts
              eq_refl ltac:(lia) eq_refl eq_refl) as (_ & _ & _ & _ & H).
  - vm_compute. repeat split; discriminate.
  - vm_compute. reflexivity.
  - exact H.
Defined.

(** ** Progress at the ends of a session *)

Lemma getProgress_full (t : PomodoroTimer) :
  totalDuration (state t) ≠ 0 → remainingTime (state t) = 0 →
  ∃ q, getProgress t = Finite q ∧ (q == 100)%Q.
Proof.
  intros Htd Hrt. unfold getProgress, js_div.
  destruct (Z.eqb_spec (totalDuration (state t)) 0) as [E | E]; [contradiction |].
  cbn [js_mul]. eexists. split; [reflexivity |].
  rewrite Hrt, Z.sub_0_r.
  destruct (totalDuration (state t)) as [| td | td]; try contradiction;
    unfold Qeq, Qmult, Qdiv, Qinv, inject_Z; cbn; lia.
Qed.

Lemma getProgress_none (t : PomodoroTimer) :
  remainingTime (state t) = totalDuration (state t) →
  ∃ q, getProgress t = Finite q ∧ (q == 0)%Q.
Proof.
  intros Hrt. unfold getProgress, js_div.
  destruct (Z.eqb_spec (totalDuration (state t)) 0) as [E | E].
  - exists 0%Q. split; reflexivity.
  - cbn [js_mul]. eexists. split; [reflexivity |].
    rewrite Hrt, Z.sub_diag.
    destruct (totalDuration (state t)) as [| td | td]; try contradiction;
      unfold Qeq, Qmult, Qdiv, Qinv, inject_Z; cbn; lia.
Qed.

(** X7. The progress is 0 whenever a session begins and 100 when the
    run completes. After [start()] on an idle or completed engine, and
    after a transition (by [skip()]) into a next session, [getProgress()]
    is 0; after the transition that completes the run it is 100, unless
    the session that ended had the total duration 0, where the guard
    makes it 0. *)
Theorem progress_at_session_boundaries (w : World) :
  (status (state (self w)) = idle ∨ status (state (self w)) = completed →
   ∃ q, getProgress (self (exec start w)) = Finite q ∧ (q == 0)%Q)
  ∧ (status (state (self w)) = running ∨ status (state (self w)) = paused →
     match getNextSession (self w) with
     | Some _ => ∃ q, getProgress (self (exec skip w)) = Finite q ∧ (q == 0)%Q
     | None =>
         if totalDuration (state (self w)) =? 0
         then getProgress (self (exec skip w)) = Finite 0
         else ∃ q, getProgress (self (exec skip w)) = Finite q ∧ (q == 100)%Q
     end).
Proof.
  split.
  - intros Hst. apply getProgress_none.
    destruct_world w. cbn [self state status] in Hst.
    destruct Hst as [-> | ->]; case_methods; reflexivity.
  - intros Hst.
    assert (E : exec skip w = exec handleSessionEnd w)
      by (unfold exec; rewrite skip_running by exact Hst; reflexivity).
    rewrite E.
    pose proof (handleSessionEnd_state w) as Hs. unfold after_end in Hs.
    destruct (getNextSession (self w)) as [next |].
    + apply getProgress_none. rewrite Hs. reflexivity.
    + destruct (Z.eqb_spec (totalDuration (state (self w))) 0) as [E0 | E0].
      * unfold getProgress. rewrite Hs. cbn [totalDuration].
        rewrite E0. reflexivity.
      * apply getProgress_full; rewrite Hs; cbn; auto.
Qed.

Lemma progress_at_session_boundaries_witness :
  let w := run [Start; Skip; Skip; Skip; Skip; Skip; Skip]
             (boot no_settings all_hooks 0 1) in
  ∃ q, getProgress (self (exec skip w)) = Finite q ∧ (q == 100)%Q.
Proof.
  intros w.
  destruct (progress_at_session_boundaries w) as [_ H].
  exact (H (or_introl eq_refl)).
Defined.

(** ** The remaining time only goes down *)

Lemma handleSessionEnd_countdown_bound (w : World) :
  countdown_bound (exec handleSessionEnd w).
Proof.
  unfold countdown_bound. cbv zeta.
  rewrite handleSessionEnd_state.
  destruct (handleSessionEnd_settings w) as (_ & _ & ->).
  pose proof (handleSessionEnd_countdown w) as Hcd. cbv zeta in Hcd.
  unfold after_end.
  destruct (getNextSession (self w)) as [next |];
    destruct Hcd as ((_ & _ & _ & ->) & ->); cbn;
    split; intros; try lia; discriminate.
Qed.

Lemma perform_countdown_bound (w : World) (a : Action) :
  host_consistent w ∧ countdown_bound w → time_forward w a →
  host_consistent (exec (perform a) w) ∧ countdown_bound (exec (perform a) w).
Proof.
  intros [Hc Hw] Ha. split; [apply perform_consistent, Hc |].
  destruct a; cbn [perform].
  - revert Hw. unfold countdown_bound. destruct_world w.
    case_methods; cbn; intros [H1 H2];
      try specialize (H1 eq_refl); try specialize (H2 eq_refl);
      split; intros; try discriminate; try lia; auto.
  - revert Hw. unfold countdown_bound. destruct_world w.
    case_methods; cbn; intros [H1 H2]; split; intros;
      try discriminate; try lia; auto.
  - revert Hw. unfold countdown_bound. destruct_world w.
    case_methods; cbn; intros [H1 H2]; split; intros;
      try discriminate; try lia; auto.
  - destruct (skip_cases w) as [[-> _] | [-> _]];
      [exact Hw | apply handleSessionEnd_countdown_bound].
  - destruct (fire_cases h w) as [-> | [(Hin & Hlt & ->) | (_ & _ & ->)]].
    + exact Hw.
    + pose proof (active_running h w Hc Hin) as Hrun.
      revert Hw Hrun. unfold countdown_bound. destruct_world w. cbn.
      intros [H1 H2] ->. split; intros; [lia | discriminate].
    + apply handleSessionEnd_countdown_bound.
  - revert Hw Ha. unfold countdown_bound, time_forward.
    destruct_world w. cbn. intros [H1 H2] Hd. split; intros; auto.
    specialize (H1 H). lia.
  - revert Hw. unfold countdown_bound. destruct_world w. cbn. tauto.
  - revert Hw. unfold countdown_bound. destruct_world w. cbn. tauto.
Qed.

(** X8. As long as the clock does not run backwards, a poll that does
    not end the session never raises the remaining time: in every state
    the engine reaches, after any further delay [d >= 0] that leaves the
    clock before the deadline, the remaining time after the poll is at
    most what it was, and it is the time left to the deadline when the
    polled interval is the scheduled one. *)
Theorem remaining_time_never_increases
    (p : PartialSettings) (cb : TimerCallbacks) (now : Z) (h0 : nat)
    (acts : list Action) (d : Z) (h : nat) :
  let w0 := boot p cb now h0 in
  admissible time_forward acts w0 → 0 ≤ d →
  let w := run acts w0 in
  let w' := run [Elapse d; Fire h] w in
  clock w + d < endTime (self w) →
  remainingTime (state (self w')) ≤ remainingTime (state (self w))
  ∧ (h ∈ intervals w →
     remainingTime (state (self w')) = endTime (self w) - (clock w + d)).
Proof.
  intros w0 Hadm Hd w w' Hlt.
  assert (H0 : host_consistent w0 ∧ countdown_bound w0).
  { split; [apply boot_consistent |].
    unfold countdown_bound; subst w0; cbn. split; discriminate. }
  clearbody w0.
  destruct (run_invariant time_forward _ perform_countdown_bound acts w0
              H0 Hadm) as [Hc [Hb _]].
  fold w in Hc, Hb.
  subst w'. cbn [run perform]. clearbody w.
  assert (Hpoll : h ∈ intervals w →
                  remainingTime (state (self (exec (fire h) (exec (elapse d) w))))
                  = endTime (self w) - (clock w + d)).
  { intros Hin.
    assert (E : exec (fire h) (exec (elapse d) w)
                = exec tick (exec (elapse d) w))
      by (unfold exec at 1 3; rewrite fire_active by exact Hin; reflexivity).
    rewrite E, tick_counting by (cbn; lia). reflexivity. }
  split; [| exact Hpoll].
  destruct (decide (h ∈ intervals w)) as [Hin | Hout].
  - rewrite (Hpoll Hin).
    specialize (Hb (active_running h w Hc Hin)). lia.
  - unfold exec at 1. rewrite fire_stale by exact Hout. cbn. lia.
Qed.

Lemma remaining_time_never_increases_witness :
  let acts := [Start; Elapse 400; Fire 1; Pause; Elapse 9000; Start] in
  let w := run acts (boot no_settings all_hooks 0 1) in
  remainingTime (state (self (run [Elapse 250; Fire 2] w)))
  ≤ remainingTime (state (self w)).
Proof.
  intros acts w.
  apply (remaining_time_never_increases no_settings all_hooks 0 1 acts 250 2).
  - vm_compute. repeat split; discriminate.
  - lia.
  - vm_compute. reflexivity.
Defined.

(** ** The length of the current session *)

Lemma handleSessionEnd_duration_matches (w : World) :
  status (state (self w)) ≠ idle →
  duration_matches w → duration_matches (exec handleSessionEnd w).
Proof.
  unfold duration_matches, getSessionDuration.
  rewrite handleSessionEnd_state.
  destruct (handleSessionEnd_settings w) as (-> & _ & _).
  unfold after_end, getSessionDuration.
  intros Hst Hw _.
  destruct (getNextSession (self w)) as [next |]; cbn; auto.
Qed.

Lemma perform_duration_matches (w : World) (a : Action) :
  host_consistent w ∧ duration_matches w → reconfigured_when_idle w a →
  host_consistent (exec (perform a) w) ∧ duration_matches (exec (perform a) w).
Proof.
  intros [Hc Hw] Ha. split; [apply perform_consistent, Hc |].
  destruct a; cbn [perform].
  - revert Hw. unfold duration_matches. destruct_world w.
    case_methods; cbn; intros H ?; try congruence; try (apply H; congruence).
  - revert Hw. unfold duration_matches. destruct_world w.
    case_methods; cbn; intros H ?; try congruence; try (apply H; congruence).
  - revert Hw. unfold duration_matches. destruct_world w.
    case_methods; cbn; intros H ?; try congruence; try (apply H; congruence).
  - destruct (skip_cases w) as [[-> _] | [-> Hst]]; [exact Hw |].
    apply handleSessionEnd_duration_matches; [| exact Hw].
    destruct Hst as [-> | ->]; discriminate.
  - destruct (fire_cases h w) as [-> | [(Hin & _ & ->) | (Hin & _ & ->)]].
    + exact Hw.
    + revert Hw. unfold duration_matches. destruct_world w. cbn. tauto.
    + pose proof (active_running h w Hc Hin) as Hrun.
      apply handleSessionEnd_duration_matches.
      * rewrite with_remaining_status, Hrun. discriminate.
      * revert Hw. unfold duration_matches. destruct_world w. cbn. tauto.
  - revert Hw. unfold duration_matches. destruct_world w. cbn. tauto.
  - revert Hw Ha. unfold duration_matches, reconfigured_when_idle.
    destruct_world w. cbn. intros _ -> E. congruence.
  - revert Hw. unfold duration_matches. destruct_world w. cbn. tauto.
Qed.

(** X9. When the configuration is replaced only while the engine is idle
    (as the settings screen does), the total duration of a started
    engine is always the configured length of its current session, in
    minutes times 60000: while running, while paused, and after the
    completion, for the session that ended last. *)
Theorem total_duration_is_configured_length
    (p : PartialSettings) (cb : TimerCallbacks) (now : Z) (h0 : nat)
    (acts : list Action) :
  let w0 := boot p cb now h0 in
  admissible reconfigured_when_idle acts w0 →
  let w := run acts w0 in
  status (state (self w)) ≠ idle →
  totalDuration (state (self w))
  = match currentSession (state (self w)) with
    | work => workDuration (settings (self w))
    | break => breakDuration (settings (self w))
    | longBreak => longBreakDuration (settings (self w))
    end * 60 * 1000.
Proof.
  intros w0 Hadm w Hst.
  assert (H0 : host_consistent w0 ∧ duration_matches w0).
  { split; [apply boot_consistent |]. intros E. exfalso. apply E. reflexivity. }
  clearbody w0.
  destruct (run_invariant reconfigured_when_idle _ perform_duration_matches
              acts w0 H0 Hadm) as [_ Hd].
  fold w in Hd. rewrite (Hd Hst). unfold getSessionDuration.
  destruct (currentSession (state (self w))); lia.
Qed.

Lemma total_duration_is_configured_length_witness :
  let acts := [UpdateSettings work_fifty; Start; Skip; Pause; Skip] in
  let w := run acts (boot no_settings all_hooks 0 1) in
  totalDuration (state (self w))
  = match currentSession (state (self w)) with
    | work => workDuration (settings (self w))
    | break => breakDuration (settings (self w))
    | longBreak => longBreakDuration (settings (self w))
    end * 60 * 1000.
Proof.
  intros acts.
  apply (total_duration_is_configured_length no_settings all_hooks 0 1 acts).
  - vm_compute. repeat split.
  - vm_compute. discriminate.
Defined.

(** ** What the observers see *)

Lemma last_snapshot_app (l l' : list Event) :
  last_snapshot (l ++ l')
  = match last_snapshot l' with
    | Some s => Some s
    | None => last_snapshot l
    end.
Proof.
  induction l as [| e l IH]; cbn.
  - destruct (last_snapshot l'); reflexivity.
  - rewrite IH. destruct (last_snapshot l'); reflexivity.
Qed.

Lemma last_snapshot_end_calls (l : list Event) (t : PomodoroTimer) :
  onStateChange (callbacks t) = true →
  last_snapshot (l ++ end_calls t) = Some (after_end t).
Proof.
  intros H. unfold end_calls. rewrite H, !last_snapshot_app. reflexivity.
Qed.

Lemma handleSessionEnd_observed (s0 : TimerState) (w : World) :
  onTick (callbacks (self w)) = true →
  onStateChange (callbacks (self w)) = true →
  observed s0 (exec handleSessionEnd w).
Proof.
  intros Ht Hs. unfold observed.
  destruct (handleSessionEnd_settings w) as (_ & -> & _).
  rewrite handleSessionEnd_log, handleSessionEnd_state.
  rewrite last_snapshot_end_calls by exact Hs. auto.
Qed.

Lemma perform_observed (s0 : TimerState) (w : World) (a : Action) :
  observed s0 w → callbacks_kept w a → observed s0 (exec (perform a) w).
Proof.
  intros Hw Ha. destruct a; cbn [perform]; try contradiction.
  - revert Hw. unfold observed. destruct_world w.
    cbn [self callbacks onTick onStateChange log state].
    intros (-> & -> & H).
    case_methods; rewrite ?last_snapshot_app; cbn; auto.
  - revert Hw. unfold observed. destruct_world w.
    cbn [self callbacks onTick onStateChange log state].
    intros (-> & -> & H).
    case_methods; rewrite ?last_snapshot_app; cbn; auto.
  - revert Hw. unfold observed. destruct_world w.
    cbn [self callbacks onTick onStateChange log state].
    intros (-> & -> & H).
    case_methods; rewrite ?last_snapshot_app; cbn; auto.
  - destruct (skip_cases w) as [[-> _] | [-> _]]; [exact Hw |].
    destruct Hw as (Ht & Hs & _). apply handleSessionEnd_observed; assumption.
  - destruct (fire_cases h w) as [-> | [(_ & _ & ->) | (_ & _ & ->)]].
    + exact Hw.
    + revert Hw. unfold observed. destruct_world w.
      cbn [self callbacks onTick onStateChange log state].
      intros (-> & -> & H). cbn. rewrite last_snapshot_app. cbn. auto.
    + destruct Hw as (Ht & Hs & _).
      apply handleSessionEnd_observed; destruct_world w; assumption.
  - revert Hw. unfold observed. destruct_world w. cbn. tauto.
  - revert Hw. unfold observed. destruct_world w. cbn. tauto.
Qed.

(** X10. An observer registered for [onTick] and [onStateChange] at
    construction never holds a stale state: after any sequence of
    operations, polls and configuration updates, the snapshot it
    received last is the engine's current state, and as long as it has
    received none the state is still the initial one. *)
Theorem observers_hold_current_state
    (p : PartialSettings) (cb : TimerCallbacks) (now : Z) (h0 : nat)
    (acts : list Action) :
  let w0 := boot p cb now h0 in
  onTick cb = true → onStateChange cb = true →
  admissible callbacks_kept acts w0 →
  let w := run acts w0 in
  match last_snapshot (log w) with
  | Some s => s = state (self w)
  | None => state (self w) = state (self w0)
  end.
Proof.
  intros w0 Ht Hs Hadm w.
  assert (H0 : observed (state (self w0)) w0)
    by (subst w0; repeat split; assumption).
  generalize dependent (state (self w0)). intros s0 H0.
  clearbody w0.
  destruct (run_invariant callbacks_kept _ (perform_observed s0) acts w0
              H0 Hadm) as (_ & _ & H).
  exact H.
Qed.

Lemma observers_hold_current_state_witness :
  let acts := [Start; Elapse 700; Fire 1; Pause; Start; Elapse 1499300;
               Fire 2; UpdateSettings work_fifty; Skip] in
  let w := run acts (boot no_settings all_hooks 0 1) in
  match last_snapshot (log w) with
  | Some s => s = state (self w)
  | None => state (self w) = state (self (boot no_settings all_hooks 0 1))
  end.
Proof.
  intros acts.
  apply (observers_hold_current_state no_settings all_hooks 0 1 acts);
    [reflexivity | reflexivity |].
  vm_compute. repeat split.
Defined.

(** ** The session ends reported *)

Lemma sessions_chain_app (prev : SessionType) (l l' : list Event) :
  sessions_chain prev (l ++ l')
  ↔ sessions_chain prev l ∧ sessions_chain (session_after prev l) l'.
Proof.
  revert prev. induction l as [| e l IH]; intros prev; cbn.
  - tauto.
  - destruct e; cbn; rewrite ?IH; tauto.
Qed.

Lemma session_after_app (prev : SessionType) (l l' : list Event) :
  session_after prev (l ++ l') = session_after (session_after prev l) l'.
Proof.
  revert prev. induction l as [| e l IH]; intros prev; cbn; [reflexivity |].
  destruct e; cbn; apply IH.
Qed.

Lemma end_calls_chain (t : PomodoroTimer) :
  onSessionEnd (callbacks t) = true →
  sessions_chain (currentSession (state t)) (end_calls t)
  ∧ session_after (currentSession (state t)) (end_calls t)
    = currentSession (after_end t).
Proof.
  intros H. unfold end_calls, after_end. rewrite H.
  destruct (getNextSession t), (onComplete (callbacks t)),
    (onStateChange (callbacks t)); cbn; auto.
Qed.

Lemma handleSessionEnd_announced (w : World) :
  announced w → announced (exec handleSessionEnd w).
Proof.
  unfold announced. intros (Hcb & Hch & Hcur).
  destruct (handleSessionEnd_settings w) as (_ & -> & _).
  rewrite handleSessionEnd_log, handleSessionEnd_state.
  rewrite sessions_chain_app, session_after_app, Hcur.
  destruct (end_calls_chain (self w) Hcb) as [H1 H2]. auto.
Qed.

Lemma perform_announced (w : World) (a : Action) :
  announced w → one_cycle w a → announced (exec (perform a) w).
Proof.
  intros Hw Ha. destruct a; cbn [perform]; try contradiction.
  - revert Hw. unfold announced. destruct_world w.
    cbn [self callbacks onSessionEnd log state currentSession].
    intros (-> & Hch & Hcur).
    case_methods;
      rewrite ?sessions_chain_app, ?session_after_app; cbn; auto.
  - revert Hw. unfold announced. destruct_world w.
    cbn [self callbacks onSessionEnd log state currentSession].
    intros (-> & Hch & Hcur).
    case_methods;
      rewrite ?sessions_chain_app, ?session_after_app; cbn; auto.
  - destruct (skip_cases w) as [[-> _] | [-> _]];
      [exact Hw | apply handleSessionEnd_announced, Hw].
  - destruct (fire_cases h w) as [-> | [(_ & _ & ->) | (_ & _ & ->)]].
    + exact Hw.
    + revert Hw. unfold announced. destruct_world w.
      cbn [self callbacks onSessionEnd log state currentSession].
      intros (-> & Hch & Hcur). cbn.
      rewrite sessions_chain_app, session_after_app.
      destruct onTick0; cbn; auto.
    + apply handleSessionEnd_announced.
      revert Hw. unfold announced. destruct_world w. cbn. tauto.
  - revert Hw. unfold announced. destruct_world w. cbn. tauto.
  - revert Hw. unfold announced. destruct_world w. cbn. tauto.
Qed.

(** X11. Within one cycle (no reset) the reports of [onSessionEnd] tell
    a consistent story: the first one ends a work session; each later
    one ends exactly the session the one before announced as next (after
    a report without a next session, the same session again); and the
    session announced last is the engine's current session. *)
Theorem session_ends_form_a_chain
    (p : PartialSettings) (cb : TimerCallbacks) (now : Z) (h0 : nat)
    (acts : list Action) :
  let w0 := boot p cb now h0 in
  onSessionEnd cb = true →
  admissible one_cycle acts w0 →
  let w := run acts w0 in
  sessions_chain work (log w)
  ∧ session_after work (log w) = currentSession (state (self w)).
Proof.
  intros w0 Hcb Hadm w.
  assert (H0 : announced w0) by (subst w0; repeat split; assumption).
  clearbody w0.
  destruct (run_invariant one_cycle _ perform_announced acts w0 H0 Hadm)
    as (_ & H1 & H2).
  split; assumption.
Qed.

Lemma session_ends_form_a_chain_witness :
  let acts := [Start; Skip; Pause; Skip; Elapse 1500000; Fire 3; Skip; Skip;
               Skip; Skip; Start; Skip] in
  let w := run acts (boot no_settings all_hooks 0 1) in
  sessions_chain work (log w)
  ∧ session_after work (log w) = currentSession (state (self w)).
Proof.
  intros acts.
  apply (session_ends_form_a_chain no_settings all_hooks 0 1 acts);
    [reflexivity |].
  vm_compute. repeat split.
Defined.

(** * Properties of the screen helpers *)

(** ** Reading a number input *)

Lemma append_cons (c : ascii) (s r : string) :
  (String c s ++ r)%string = String c (s ++ r)%string.
Proof. reflexivity. Qed.

Lemma append_empty (s : string) : (s ++ EmptyString)%string = s.
Proof. induction s as [| c s IH]; [reflexivity |]. rewrite append_cons, IH. reflexivity. Qed.

Lemma of_uint_acc_value (l : Decimal.uint) (p : positive) :
  Z.pos (Pos.of_uint_acc l p) = uint_value l (Z.pos p).
Proof.
  revert p. induction l; intros p; cbn [Pos.of_uint_acc uint_value];
    [reflexivity | ..]; rewrite IHl; f_equal; lia.
Qed.

Lemma of_uint_value (d : Decimal.uint) : Z.of_uint d = uint_value d 0.
Proof.
  unfold Z.of_uint.
  induction d; cbn [Pos.of_uint uint_value]; try reflexivity;
    try (exact IHd);
    cbn [Z.of_N]; rewrite of_uint_acc_value; reflexivity.
Qed.

Lemma read_digits_ends (rest : js_string) (acc : option Z) :
  ends_number rest → read_digits rest acc = acc.
Proof.
  destruct rest as [| c rest]; cbn; [reflexivity |]. intros ->. reflexivity.
Qed.

Lemma read_digits_uint (u : Decimal.uint) (rest : js_string) (acc : option Z) :
  ends_number rest →
  read_digits (code_units (NilEmpty.string_of_uint u) ++ rest) acc
  = match u with
    | Decimal.Nil => acc
    | _ => Some (uint_value u (default 0 acc))
    end.
Proof.
  intros Hrest. revert acc.
  induction u; intros acc;
    cbn [NilEmpty.string_of_uint code_units app];
    [apply read_digits_ends, Hrest | ..];
    cbn [read_digits];
    match goal with
    | |- context [digit_of ?c] =>
        let v := eval vm_compute in (digit_of c) in
        change (digit_of c) with v
    end;
    cbv iota; rewrite IHu; destruct u; reflexivity.
Qed.

(** The digits of a positive number start with a digit: not with white
    space and not with a sign. *)
Lemma digits_start (p : positive) (rest : js_string) :
  ∃ c tail,
    code_units (NilEmpty.string_of_uint (Pos.to_uint p)) ++ rest = c :: tail
    ∧ is_space c = false ∧ is_sign c = false.
Proof.
  pose proof (DecimalPos.Unsigned.to_uint_nonnil p) as Hnn.
  destruct (Pos.to_uint p); [contradiction | ..];
    cbn [NilEmpty.string_of_uint code_units app];
    eexists _, _; (split; [reflexivity |]); split; reflexivity.
Qed.

Lemma uint_value_to_uint (p : positive) : uint_value (Pos.to_uint p) 0 = Z.pos p.
Proof.
  rewrite <- of_uint_value. unfold Z.of_uint.
  rewrite DecimalPos.Unsigned.of_to. reflexivity.
Qed.

Lemma read_digits_positive (p : positive) (rest : js_string) :
  ends_number rest →
  read_digits (code_units (NilEmpty.string_of_uint (Pos.to_uint p)) ++ rest)
    None = Some (Z.pos p).
Proof.
  intros Hrest. rewrite read_digits_uint by exact Hrest.
  pose proof (DecimalPos.Unsigned.to_uint_nonnil p) as Hnn.
  pose proof (uint_value_to_uint p) as Hval.
  destruct (Pos.to_uint p); [contradiction | ..];
    cbn [default]; rewrite Hval; reflexivity.
Qed.

Lemma parseInt_10_positive (p : positive) (rest : js_string) :
  ends_number rest →
  parseInt_10 (code_units (toString (Z.pos p)) ++ rest) = Some (Z.pos p).
Proof.
  intros Hrest. unfold toString. cbn [Z.to_int NilEmpty.string_of_int].
  pose proof (read_digits_positive p rest Hrest) as Hread.
  destruct (digits_start p rest) as (c & tail & E & Hsp & Hsg).
  rewrite E in *. unfold parseInt_10. cbn [trim_start]. rewrite Hsp.
  cbv zeta. cbn [strip_sign]. rewrite Hsg, Hread.
  unfold is_sign in Hsg. apply orb_false_elim in Hsg as [-> _].
  cbn [option_map]. f_equal; lia.
Qed.

Lemma parseInt_10_negative (p : positive) :
  parseInt_10 (code_units (toString (Z.neg p))) = Some (Z.neg p).
Proof.
  unfold toString. cbn [Z.to_int NilEmpty.string_of_int code_units].
  pose proof (read_digits_positive p [] I) as Hread.
  rewrite app_nil_r in Hread.
  unfold parseInt_10. cbn [trim_start].
  change (N_of_ascii "-") with 45%N.
  change (is_space 45%N) with false. cbv iota zeta.
  cbn [strip_sign]. change (is_sign 45%N) with true. cbv iota.
  rewrite Hread. reflexivity.
Qed.

Lemma trim_start_app (ws text : js_string) :
  forallb is_space ws = true → trim_start (ws ++ text) = trim_start text.
Proof.
  induction ws as [| c ws IH]; cbn [forallb app trim_start];
    [reflexivity |].
  intros H. apply andb_prop in H as [-> H]. apply IH, H.
Qed.

Lemma getInputValue_bounds (text : js_string) (defaultValue : Z) :
  0 < defaultValue →
  0 < getInputValue text defaultValue
  ∧ (getInputValue text defaultValue = defaultValue
     ∨ parseInt_10 text = Some (getInputValue text defaultValue)).
Proof.
  intros Hd. unfold getInputValue.
  destruct (parseInt_10 text) as [v |]; [| auto].
  destruct (Z.leb_spec v 0); [auto |]. split; [lia | auto].
Qed.

(** X12. [getInputValue] never hands the engine a value that is not
    positive: whatever the text of the input, the result is above zero
    when the default is. A positive whole number typed in (within the
    safe integers) comes back as that number, also when more text that
    is not a digit follows, so that a fraction is cut off. Zero, a
    negative number and a text without a number (one that, after its
    white space and sign, is empty or goes on with something other than
    a digit) give the default. White space before the text, the
    no-break space and the byte order mark included, changes nothing. *)
Theorem getInputValue_positive
    (text ws rest : js_string) (defaultValue n : Z) :
  (0 < defaultValue → 0 < getInputValue text defaultValue)
  ∧ (0 < n ≤ 9007199254740991 → ends_number rest →
     getInputValue (code_units (toString n) ++ rest) defaultValue = n)
  ∧ (n ≤ 0 →
     getInputValue (code_units (toString n)) defaultValue = defaultValue)
  ∧ (no_number text → getInputValue text defaultValue = defaultValue)
  ∧ (forallb is_space ws = true →
     getInputValue (ws ++ text) defaultValue
     = getInputValue text defaultValue).
Proof.
  split; [| split; [| split; [| split]]].
  - intros Hd. unfold getInputValue.
    destruct (parseInt_10 text) as [v |]; [| exact Hd].
    destruct (Z.leb_spec v 0); lia.
  - intros [Hn _] Hrest. unfold getInputValue.
    destruct n as [| p | p]; try lia.
    rewrite parseInt_10_positive by exact Hrest. reflexivity.
  - intros Hn. unfold getInputValue.
    destruct n as [| p | p]; try lia; [reflexivity |].
    rewrite parseInt_10_negative. reflexivity.
  - unfold no_number, getInputValue, parseInt_10. intros Hno. cbv zeta.
    rewrite (read_digits_ends _ None Hno). reflexivity.
  - intros Hws. unfold getInputValue, parseInt_10.
    rewrite trim_start_app by exact Hws. reflexivity.
Qed.

Lemma getInputValue_positive_witness :
  0 < getInputValue (code_units "  x") 25
  ∧ getInputValue (code_units (toString 2) ++ code_units ".5") 25 = 2
  ∧ getInputValue (code_units (toString (-4))) 25 = 25
  ∧ getInputValue (code_units "  x") 25 = 25
  ∧ getInputValue ([160; 65279]%N ++ code_units "  x") 25
    = getInputValue (code_units "  x") 25.
Proof.
  destruct (getInputValue_positive (code_units "  x") [160; 65279]%N
              (code_units ".5") 25 2) as (H1 & H2 & _ & H4 & H5).
  destruct (getInputValue_positive (code_units "  x") [160; 65279]%N
              (code_units ".5") 25 (-4)) as (_ & _ & H3 & _).
  split; [apply H1; lia |].
  split; [apply H2; [lia | reflexivity] |].
  split; [apply H3; lia |].
  split; [apply H4; reflexivity |].
  apply H5. reflexivity.
Defined.

(** What the no-break space and the byte order mark before a number do:
    nothing. *)
Example getInputValue_no_break_space :
  getInputValue (160%N :: code_units "7") 25 = 7
  ∧ getInputValue (65279%N :: code_units "12") 25 = 12.
Proof. split; reflexivity. Qed.

(** X13. The settings read from the form always suit the engine: every
    duration, the number of sets and the long-break interval are at
    least 1, whatever was typed. Applied to an idle engine and started,
    as submitting the form does, they give a running session whose
    total and remaining time are the configured length of that session,
    above zero. *)
Theorem form_settings_suit_the_engine (f : FormInputs) (w : World) :
  let s := getFormSettings f in
  (1 ≤ workDuration s ∧ 1 ≤ breakDuration s ∧ 1 ≤ longBreakDuration s
   ∧ 1 ≤ totalSets s ∧ 1 ≤ longBreakInterval s
   ∧ durations_ok s)
  ∧ (status (state (self w)) = idle →
     let w' := run [UpdateSettings (all_settings s); Start] w in
     settings (self w') = s
     ∧ status (state (self w')) = running
     ∧ remainingTime (state (self w')) = totalDuration (state (self w'))
     ∧ totalDuration (state (self w'))
       = getSessionDuration (self w') (currentSession (state (self w')))
     ∧ 0 < totalDuration (state (self w'))).
Proof.
  intros s.
  assert (Hpos : ∀ text d, 0 < d → 1 ≤ getInputValue text d).
  { intros text d Hd.
    destruct (getInputValue_bounds text d Hd). lia. }
  assert (Hs : 1 ≤ workDuration s ∧ 1 ≤ breakDuration s
               ∧ 1 ≤ longBreakDuration s
               ∧ 1 ≤ totalSets s ∧ 1 ≤ longBreakInterval s).
  { subst s. unfold getFormSettings. cbn.
    repeat split; apply Hpos; lia. }
  split.
  - destruct Hs as (? & ? & ? & ? & ?).
    repeat split; auto; unfold durations_ok; try lia.
  - intros Hidle w'.
    assert (E : settings (self w') = s
                ∧ status (state (self w')) = running
                ∧ remainingTime (state (self w'))
                  = totalDuration (state (self w'))
                ∧ totalDuration (state (self w'))
                  = getSessionDuration (self w')
                      (currentSession (state (self w')))).
    { subst w'. cbn [run perform]. generalize s. intros s'.
      destruct_world w. cbn [self state status] in Hidle. subst.
      unfold_methods. rewrite spread_all.
      destruct onStateChange0; repeat split. }
    destruct E as (E1 & E2 & E3 & E4).
    repeat split; auto.
    rewrite E4. unfold getSessionDuration. rewrite E1.
    destruct Hs as (? & ? & ? & ? & ?).
    destruct (currentSession (state (self w'))); lia.
Qed.

Lemma form_settings_suit_the_engine_witness :
  let w' := run [UpdateSettings (all_settings (getFormSettings blank_form));
                 Start] (boot no_settings all_hooks 0 1) in
  0 < totalDuration (state (self w')).
Proof.
  intros w'.
  destruct (form_settings_suit_the_engine blank_form
              (boot no_settings all_hooks 0 1)) as [_ H].
  destruct (H eq_refl) as (_ & _ & _ & _ & Hpos). exact Hpos.
Defined.

(** ** The set indicators *)

Lemma append_assoc (a b c : string) :
  ((a ++ b) ++ c)%string = (a ++ (b ++ c))%string.
Proof.
  induction a as [| x a IH]; [reflexivity |].
  rewrite !append_cons, IH. reflexivity.
Qed.

Lemma repeat_string_snoc (k : nat) (s : string) :
  (repeat_string k s ++ s)%string = (s ++ repeat_string k s)%string.
Proof.
  induction k as [| k IH]; cbn [repeat_string].
  - rewrite append_empty. reflexivity.
  - rewrite append_assoc, IH. reflexivity.
Qed.

(** A stretch of the loop behind the current set. *)
Lemma indicators_from_completed (k m : nat) (i c n : Z) (html : string) :
  i + Z.of_nat k ≤ c → i + Z.of_nat k - 1 ≤ n →
  indicators_from (k + m) i c n html
  = indicators_from m (i + Z.of_nat k) c n
      (html ++ repeat_string k completed_dot)%string.
Proof.
  revert i html. induction k as [| k IH]; intros i html Hc Hn.
  - cbn [Nat.add repeat_string]. rewrite append_empty. f_equal. lia.
  - cbn [Nat.add indicators_from].
    destruct (Z.leb_spec i n); [| lia].
    destruct (Z.ltb_spec i c); [| lia].
    rewrite IH by lia. f_equal; [lia |].
    cbn [repeat_string]. rewrite append_assoc. reflexivity.
Qed.

(** A stretch of the loop ahead of the current set. *)
Lemma indicators_from_plain (k m : nat) (i c n : Z) (html : string) :
  c < i → i + Z.of_nat k - 1 ≤ n →
  indicators_from (k + m) i c n html
  = indicators_from m (i + Z.of_nat k) c n
      (html ++ repeat_string k plain_dot)%string.
Proof.
  revert i html. induction k as [| k IH]; intros i html Hc Hn.
  - cbn [Nat.add repeat_string]. rewrite append_empty. f_equal. lia.
  - cbn [Nat.add indicators_from].
    destruct (Z.leb_spec i n); [| lia].
    destruct (Z.ltb_spec i c); [lia |].
    destruct (Z.eqb_spec i c); [lia |].
    rewrite IH by lia. f_equal; [lia |].
    cbn [repeat_string]. rewrite append_assoc. reflexivity.
Qed.

(** The loop stops once past the last set. *)
Lemma indicators_from_past (m : nat) (i c n : Z) (html : string) :
  n < i → indicators_from m i c n html = html.
Proof.
  intros H. destruct m; cbn [indicators_from]; [reflexivity |].
  destruct (Z.leb_spec i n); [lia | reflexivity].
Qed.

Lemma indicators_in_range (c n : Z) :
  1 ≤ c ≤ n → generateSetIndicators c n = indicators_layout c n.
Proof.
  intros Hc. unfold generateSetIndicators, indicators_layout.
  replace (Z.to_nat n)
    with (Z.to_nat (c - 1) + (1 + (Z.to_nat (n - c) + 0)))%nat by lia.
  rewrite indicators_from_completed by lia.
  rewrite Z2Nat.id by lia.
  replace (1 + (c - 1)) with c by lia.
  cbn [Nat.add indicators_from].
  destruct (Z.leb_spec c n); [| lia].
  rewrite Z.ltb_irrefl, Z.eqb_refl.
  rewrite indicators_from_plain by lia.
  rewrite indicators_from_past by lia.
  rewrite append_assoc. reflexivity.
Qed.

(** X14. [generateSetIndicators] draws one dot per set. For the current
    set [c] of [n] sets, [1 <= c <= n], the dots are [c - 1] completed
    ones, then the current one, then [n - c] plain ones. Outside that
    range no dot is current: with the current set beyond the last they
    are all completed, with it below 1 all plain, and there is no dot at
    all when the number of sets is not positive. *)
Theorem generateSetIndicators_layout (c n : Z) :
  (1 ≤ c ≤ n → generateSetIndicators c n = indicators_layout c n)
  ∧ (0 ≤ n < c →
     generateSetIndicators c n = repeat_string (Z.to_nat n) completed_dot)
  ∧ (c < 1 → 0 ≤ n →
     generateSetIndicators c n = repeat_string (Z.to_nat n) plain_dot)
  ∧ (n ≤ 0 → generateSetIndicators c n = EmptyString).
Proof.
  split; [exact (indicators_in_range c n) |].
  unfold generateSetIndicators. split; [| split].
  - intros Hn.
    replace (Z.to_nat n) with (Z.to_nat n + 0)%nat at 1 by lia.
    rewrite indicators_from_completed by lia. reflexivity.
  - intros Hc Hn.
    replace (Z.to_nat n) with (Z.to_nat n + 0)%nat at 1 by lia.
    rewrite indicators_from_plain by lia. reflexivity.
  - intros Hn. apply indicators_from_past. lia.
Qed.

Lemma generateSetIndicators_layout_witness :
  generateSetIndicators 2 4
  = (completed_dot ++ current_dot ++ plain_dot ++ plain_dot)%string.
Proof.
  destruct (generateSetIndicators_layout 2 4) as [H _].
  rewrite H by lia. reflexivity.
Defined.

(** X15. The indicators drawn for a state the engine reaches always show
    exactly one current dot, with the finished sets before it and the
    remaining ones after it: for every such state, with at least one set
    configured, [generateSetIndicators(currentSet, totalSets)] has the
    layout of a current set within range. *)
Theorem indicators_of_reachable_state
    (p : PartialSettings) (cb : TimerCallbacks) (now : Z) (h0 : nat)
    (acts : list Action) :
  let w0 := boot p cb now h0 in
  1 ≤ totalSets (settings (self w0)) →
  admissible keeps_sets acts w0 →
  let w := run acts w0 in
  generateSetIndicators (currentSet (state (self w)))
    (totalSets (settings (self w)))
  = indicators_layout (currentSet (state (self w)))
      (totalSets (settings (self w))).
Proof.
  intros w0 Hn Hacts w.
  assert (H0 : set_in_range w0).
  { unfold set_in_range. revert Hn. subst w0. cbn. intros Hn.
    repeat split; try lia. congruence. }
  clearbody w0.
  destruct (run_invariant keeps_sets set_in_range perform_in_range acts w0
              H0 Hacts) as [H _].
  apply indicators_in_range. exact H.
Qed.

Lemma indicators_of_reachable_state_witness :
  let acts := [Start; Skip; Skip; Pause; Skip] in
  let w := run acts (boot no_settings all_hooks 0 1) in
  generateSetIndicators (currentSet (state (self w)))
    (totalSets (settings (self w)))
  = indicators_layout (currentSet (state (self w)))
      (totalSets (settings (self w))).
Proof.
  intros acts.
  apply (indicators_of_reachable_state no_settings all_hooks 0 1 acts).
  - vm_compute. discriminate.
  - repeat split.
Defined.

(** * Properties of the audio player *)

(** X16. [setVolume] keeps the volume between 0 and 1: a number within
    the range is kept, a lower one becomes 0 and a higher one 1, also
    for the infinities. The check is lost on [NaN], which is stored as
    it is. The other fields are not touched, and setting the stored
    volume again changes nothing. *)
Theorem setVolume_clamps (v : number) (a : AudioManager) :
  let a' := setVolume v a in
  enabled a' = enabled a
  ∧ audioContext a' = audioContext a
  ∧ setVolume (volume a') a' = a'
  ∧ match v with
    | Finite q =>
        ∃ q', volume a' = Finite q'
              ∧ (0 <= q')%Q ∧ (q' <= 1)%Q
              ∧ ((0 <= q)%Q → (q <= 1)%Q → (q' == q)%Q)
              ∧ ((q < 0)%Q → q' = 0%Q)
              ∧ ((1 < q)%Q → q' = 1%Q)
    | PlusInfinity => volume a' = Finite 1
    | MinusInfinity => volume a' = Finite 0
    | NotANumber => volume a' = NotANumber
    end.
Proof.
  intros a'. subst a'. unfold setVolume. cbn [enabled audioContext volume].
  split; [reflexivity |]. split; [reflexivity |].
  destruct v as [q | | |]; cbn [js_min js_max].
  - destruct (Qle_bool 1 q) eqn:H1; cbn [js_min js_max].
    + apply Qle_bool_iff in H1.
      change (Qle_bool 0 1) with true. cbn [js_min js_max].
      change (Qle_bool 1 1) with true. change (Qle_bool 0 1) with true.
      split; [reflexivity |]. exists 1%Q.
      repeat split; try (intros; reflexivity); try discriminate.
      * intros _ Hq. apply Qle_antisym; assumption.
      * intros Hq. exfalso. apply (Qlt_irrefl 0).
        apply Qle_lt_trans with q; [| exact Hq].
        apply Qle_trans with 1%Q; [discriminate | exact H1].
    + assert (Hlt : (q < 1)%Q).
      { apply Qnot_le_lt. intros Hc. apply Qle_bool_iff in Hc. congruence. }
      destruct (Qle_bool 0 q) eqn:H0; cbn [js_min js_max].
      * rewrite H1. cbn [js_max]. rewrite H0.
        apply Qle_bool_iff in H0.
        split; [reflexivity |]. exists q.
        repeat split; auto; try (intros; reflexivity).
        -- apply Qlt_le_weak, Hlt.
        -- intros Hq. exfalso. apply (Qlt_irrefl q).
           apply Qlt_le_trans with 0%Q; assumption.
        -- intros Hq. exfalso. apply (Qlt_irrefl q).
           apply Qlt_trans with 1%Q; assumption.
      * assert (Hneg : (q < 0)%Q).
        { apply Qnot_le_lt. intros Hc. apply Qle_bool_iff in Hc. congruence. }
        change (Qle_bool 1 0) with false. cbn [js_max].
        change (Qle_bool 0 0) with true.
        split; [reflexivity |]. exists 0%Q.
        repeat split; try (intros; reflexivity); try discriminate.
        -- intros Hq. exfalso. apply (Qlt_irrefl q).
           apply Qlt_le_trans with 0%Q; assumption.
        -- intros Hq. exfalso. apply (Qlt_irrefl q).
           apply Qlt_trans with 1%Q; assumption.
  - split; reflexivity.
  - split; reflexivity.
  - split; reflexivity.
Qed.

Lemma setVolume_clamps_witness :
  volume (setVolume (Finite (3 # 2)) (mkAudio false true (Finite (1 # 2))))
  = Finite 1.
Proof.
  destruct (setVolume_clamps (Finite (3 # 2))
              (mkAudio false true (Finite (1 # 2))))
    as (_ & _ & _ & q' & -> & _ & _ & _ & _ & H).
  rewrite H; reflexivity.
Defined.

(** * Long breaks over a full run *)

Lemma count_longBreaks_app (xs ys : list Event) :
  count_longBreaks (xs ++ ys)
  = (count_longBreaks xs + count_longBreaks ys)%nat.
Proof.
  induction xs as [| [? | ? [[] |] | | ?] xs IH]; cbn; auto.
Qed.

Lemma end_calls_longBreaks (t : PomodoroTimer) :
  onSessionEnd (callbacks t) = true →
  count_longBreaks (end_calls t)
  = match getNextSession t with
    | Some longBreak => 1%nat
    | _ => 0%nat
    end.
Proof.
  intros H. unfold end_calls. rewrite H.
  destruct (getNextSession t) as [[] |], (onComplete (callbacks t)),
    (onStateChange (callbacks t)); reflexivity.
Qed.

(** One more set adds one multiple of [L] exactly when it is one. *)
Lemma div_step (k L : Z) :
  1 ≤ k → 1 ≤ L →
  k / L = (k - 1) / L + (if strict_eq (js_rem k L) 0 then 1 else 0).
Proof.
  intros Hk HL. unfold js_rem, strict_eq.
  destruct (Z.eqb_spec L 0); [lia |].
  rewrite Z.rem_mod_nonneg by lia.
  pose proof (Z.div_mod k L ltac:(lia)) as Hdm.
  pose proof (Z.mod_pos_bound k L ltac:(lia)) as Hb.
  destruct (Z.eqb_spec (k mod L) 0) as [E | E].
  - assert (H : k / L - 1 = (k - 1) / L)
      by (apply (Z.div_unique (k - 1) L (k / L - 1) (L - 1)); lia).
    lia.
  - assert (H : k / L = (k - 1) / L)
      by (apply (Z.div_unique (k - 1) L (k / L) (k mod L - 1)); lia).
    lia.
Qed.

Lemma handleSessionEnd_long_tally (N L : Z) (w : World) :
  1 ≤ L → status (state (self w)) ≠ completed →
  long_tally N L w → long_tally N L (exec handleSessionEnd w).
Proof.
  intros HL Hst (Ht & Hl & Hc).
  split; [apply handleSessionEnd_tally; assumption |].
  destruct (handleSessionEnd_settings w) as (Es & _ & _).
  split; [rewrite Es; exact Hl |].
  rewrite handleSessionEnd_state, handleSessionEnd_log, count_longBreaks_app.
  destruct Ht as (HN & Hse & _ & Hr & Hb & _).
  rewrite end_calls_longBreaks by exact Hse.
  rewrite Nat2Z.inj_add, Hc.
  unfold after_end, getNextSession. rewrite Hl, HN.
  destruct w as [[cfg [st ses n rt td] cb iid t0 t1 pr] clk ivs nh lg].
  cbn [self state settings currentSession currentSet status] in *.
  pose proof (div_step n L ltac:(lia) HL) as Hstep.
  destruct st; try contradiction;
    destruct ses;
    destruct (Z.geb_spec n N);
    try destruct (strict_eq (js_rem n L) 0);
    cbn in *;
    try (exfalso; assert (n < N) by (apply Hb; discriminate); lia);
    try replace n with N in * by lia;
    try replace (n + 1 - 1) with n by lia;
    lia.
Qed.

Lemma perform_long_tally (N L : Z) (w : World) (a : Action) :
  1 ≤ L → long_tally N L w → within_fixed_run w a →
  long_tally N L (exec (perform a) w).
Proof.
  intros HL Hw [Hrun Ha].
  pose proof (perform_tally N w a (proj1 Hw) Hrun) as Ht.
  destruct Hrun as [Hst Hkind].
  destruct a; cbn [perform] in *; try contradiction.
  - split; [exact Ht |]. clear Ht.
    destruct Hw as (_ & Hl & Hc). revert Hl Hc Hst.
    destruct_world w. cbn [self state settings status log currentSession
                          currentSet].
    intros Hl Hc Hst.
    case_methods; rewrite ?count_longBreaks_app; cbn;
      rewrite ?Nat.add_0_r; try contradiction; auto.
  - split; [exact Ht |]. clear Ht.
    destruct Hw as (_ & Hl & Hc). revert Hl Hc Hst.
    destruct_world w. cbn [self state settings status log currentSession
                          currentSet].
    intros Hl Hc Hst.
    case_methods; rewrite ?count_longBreaks_app; cbn;
      rewrite ?Nat.add_0_r; try contradiction; auto.
  - destruct (skip_cases w) as [[E _] | [E _]]; rewrite E in *;
      [exact Hw | apply handleSessionEnd_long_tally; assumption].
  - destruct (fire_cases h w) as [E | [(_ & _ & E) | (_ & _ & E)]];
      rewrite E in *.
    + exact Hw.
    + split; [exact Ht |]. clear Ht E.
      destruct Hw as (_ & Hl & Hc). revert Hl Hc Hst.
      destruct_world w. cbn. intros Hl Hc Hst.
      rewrite count_longBreaks_app.
      destruct onTick0; cbn; rewrite Nat.add_0_r; auto.
    + apply handleSessionEnd_long_tally;
        [exact HL | rewrite with_remaining_status; exact Hst |].
      destruct Hw as (Htw & Hl & Hc).
      split; [apply with_remaining_tally, Htw |].
      clear Ht E. revert Hl Hc. destruct_world w. cbn. auto.
  - split; [exact Ht |]. destruct Hw as (_ & Hl & Hc).
    revert Hl Hc. destruct_world w. cbn. auto.
  - split; [exact Ht |]. destruct Hw as (_ & Hl & Hc).
    revert Hl Hc Hkind Ha. destruct_world w.
    destruct p as [? ? ? ? pl ? ? ?]. cbn. intros Hl Hc _ ->. cbn. auto.
  - split; [exact Ht |]. destruct Hw as (_ & Hl & Hc).
    revert Hl Hc. destruct_world w. cbn. auto.
Qed.

(** X17. A full run through [N >= 1] sets with a long break every
    [L >= 1] sets reports exactly [(N - 1) / L] long breaks (rounded
    down): one after every set whose number is a multiple of [L], except
    after the last set, which ends the run without a break. *)
Theorem long_breaks_in_a_full_run
    (p : PartialSettings) (cb : TimerCallbacks) (now : Z) (h0 : nat)
    (N L : Z) (acts : list Action) :
  let w0 := boot p cb now h0 in
  totalSets (settings (self w0)) = N → 1 ≤ N →
  longBreakInterval (settings (self w0)) = L → 1 ≤ L →
  onSessionEnd cb = true → onComplete cb = true →
  admissible within_fixed_run acts w0 →
  status (state (self (run acts w0))) = completed →
  Z.of_nat (count_longBreaks (log (run acts w0))) = (N - 1) / L.
Proof.
  intros w0 HN Hpos HL HLpos Hse Hco Hadm Hdone.
  pose proof (boot_tally p cb now h0) as H0.
  fold w0 in H0. rewrite HN in H0. specialize (H0 Hpos Hse Hco).
  assert (H1 : long_tally N L w0).
  { split; [exact H0 |]. split; [exact HL |].
    subst w0. cbn. reflexivity. }
  clearbody w0.
  destruct (run_invariant within_fixed_run _
              (fun w a => perform_long_tally N L w a HLpos) acts w0 H1 Hadm)
    as (_ & _ & Hc).
  rewrite Hdone in Hc. exact Hc.
Qed.

Lemma long_breaks_in_a_full_run_witness :
  let w0 := boot six_by_three all_hooks 0 1 in
  let acts := Start :: repeat Skip 11 in
  Z.of_nat (count_longBreaks (log (run acts w0))) = (6 - 1) / 3.
Proof.
  intros w0 acts.
  apply (long_breaks_in_a_full_run six_by_three all_hooks 0 1 6 3 acts);
    try reflexivity; try lia.
  vm_compute. repeat split; discriminate.
Defined.
